(** * TrustQuery Language (TQL): parser, generator, row operations, diff

    A shallow embedding of [src/lib/parser/generator.ts] (the generator
    [generateTqlFromJson] and the parser [parseTqlDocumentFromString],
    [parseTqlConversationFromString]) together with the properties the
    specification states about them.

    JavaScript strings are sequences of UTF-16 code units, rows are objects
    whose own properties are enumerated in [Object.keys] order, and a
    [throw] is an explicit [Throw] result. *)

From Stdlib Require Import List NArith ZArith Lia Bool Ascii.
From Stdlib Require String Decimal DecimalFacts DecimalNat.
Import String.StringSyntax.
Delimit Scope string_scope with string.
Import ListNotations.

Set Implicit Arguments.

(** ** JavaScript strings *)

Module Js.

(** A UTF-16 code unit. *)
Definition char := N.

Definition jsstring := list char.

(** A string literal of the source, all of whose characters are ASCII. *)
Definition str (s : String.string) : jsstring :=
  map N_of_ascii (String.list_ascii_of_string s).

Arguments str s%_string.

Definition c_lf : char := 10%N.
Definition c_space : char := 32%N.
Definition c_dash : char := 45%N.
Definition c_pipe : char := 124%N.
Definition c_at : char := 64%N.
Definition c_lbracket : char := 91%N.
(** U+2192, the arrow of [$diff[+i→+j]:]. *)
Definition c_arrow : char := 8594%N.

Fixpoint eqb_str (a b : jsstring) : bool :=
  match a, b with
  | [], [] => true
  | x :: a', y :: b' => N.eqb x y && eqb_str a' b'
  | _, _ => false
  end.

Definition is_empty {A : Type} (s : list A) : bool :=
  match s with [] => true | _ => false end.

(** [\s] of a regular expression and the characters [String.prototype.trim]
    removes: WhiteSpace and LineTerminator of ECMA-262. *)
Definition is_ws (c : char) : bool :=
  ((9 <=? c) && (c <=? 13) || (c =? 32) || (c =? 160) || (c =? 5760)
   || (8192 <=? c) && (c <=? 8202) || (c =? 8232) || (c =? 8233)
   || (c =? 8239) || (c =? 8287) || (c =? 12288) || (c =? 65279))%N.

(** [\d] *)
Definition is_digit (c : char) : bool := ((48 <=? c) && (c <=? 57))%N.

(** [\w]: [A-Za-z0-9_] *)
Definition is_word (c : char) : bool :=
  ((65 <=? c) && (c <=? 90) || (97 <=? c) && (c <=? 122)
   || is_digit c || (c =? 95))%N.

(** [s.startsWith(p)], returning what follows the prefix. *)
Fixpoint strip_prefix (p s : jsstring) : option jsstring :=
  match p, s with
  | [], _ => Some s
  | x :: p', y :: s' => if N.eqb x y then strip_prefix p' s' else None
  | _ :: _, [] => None
  end.

Definition startsWith (s p : jsstring) : bool :=
  match strip_prefix p s with Some _ => true | None => false end.

(** The longest prefix of characters of a class, and the rest: what a greedy
    [c+] consumes when the pattern goes on with a character outside [c]. *)
Fixpoint span (p : char -> bool) (s : jsstring) : jsstring * jsstring :=
  match s with
  | [] => ([], [])
  | c :: s' =>
      if p c then let (a, b) := span p s' in (c :: a, b) else ([], s)
  end.

Fixpoint trimStart (s : jsstring) : jsstring :=
  match s with
  | [] => []
  | c :: s' => if is_ws c then trimStart s' else s
  end.

Definition trimEnd (s : jsstring) : jsstring := rev (trimStart (rev s)).

(** [s.trim()] *)
Definition trim (s : jsstring) : jsstring := trimEnd (trimStart s).

(** [s.slice(1, -1)] *)
Definition slice_1_m1 (s : jsstring) : jsstring := removelast (tl s).

(** [s.padEnd(w)] *)
Definition padEnd (s : jsstring) (w : nat) : jsstring :=
  s ++ repeat c_space (w - length s).

Fixpoint split_aux (c : char) (s : jsstring) : jsstring * list jsstring :=
  match s with
  | [] => ([], [])
  | x :: s' =>
      let (p, ps) := split_aux c s' in
      if N.eqb x c then ([], p :: ps) else (x :: p, ps)
  end.

(** [s.split(c)] for a separator of one character: never empty. *)
Definition split (c : char) (s : jsstring) : list jsstring :=
  let (p, ps) := split_aux c s in p :: ps.

(** [parts.join(sep)] *)
Fixpoint join (sep : jsstring) (parts : list jsstring) : jsstring :=
  match parts with
  | [] => []
  | [p] => p
  | p :: ps => p ++ sep ++ join sep ps
  end.

Fixpoint digits_of_uint (u : Decimal.uint) : jsstring :=
  match u with
  | Decimal.Nil => []
  | Decimal.D0 u => 48%N :: digits_of_uint u
  | Decimal.D1 u => 49%N :: digits_of_uint u
  | Decimal.D2 u => 50%N :: digits_of_uint u
  | Decimal.D3 u => 51%N :: digits_of_uint u
  | Decimal.D4 u => 52%N :: digits_of_uint u
  | Decimal.D5 u => 53%N :: digits_of_uint u
  | Decimal.D6 u => 54%N :: digits_of_uint u
  | Decimal.D7 u => 55%N :: digits_of_uint u
  | Decimal.D8 u => 56%N :: digits_of_uint u
  | Decimal.D9 u => 57%N :: digits_of_uint u
  end.

(** [`${n}`] for a row count. *)
Definition number_to_string (n : nat) : jsstring :=
  digits_of_uint (Nat.to_uint n).

(** [Number.parseInt(ds, 10)] on a string of decimal digits.  The result is
    exact here; a JavaScript number is exact up to 2^53, far above the length
    of any array the result is compared with. *)
Definition parseInt (ds : jsstring) : N :=
  fold_left (fun acc d => (10 * acc + (d - 48))%N) ds 0%N.

(** ** Objects with string values

    The own enumerable properties of an object, in the order [Object.keys]
    lists them: array indices first, ascending, then the other keys in the
    order they were created. *)

Definition object := list (jsstring * jsstring).

Definition keys (o : object) : list jsstring := map fst o.

Fixpoint get_own (k : jsstring) (o : object) : option jsstring :=
  match o with
  | [] => None
  | (k', v) :: o' => if eqb_str k k' then Some v else get_own k o'
  end.

(** A canonical numeric string below 2^32 - 1 is an array index. *)
Definition array_index (k : jsstring) : option N :=
  match k with
  | [] => None
  | c :: k' =>
      if forallb is_digit k && (negb (N.eqb c 48) || is_empty k')
         && (parseInt k <? 4294967295)%N
      then Some (parseInt k) else None
  end.

Fixpoint replace_own (k v : jsstring) (o : object) : object :=
  match o with
  | [] => []
  | (k', v') :: o' =>
      if eqb_str k k' then (k', v) :: o' else (k', v') :: replace_own k v o'
  end.

Fixpoint insert_index (n : N) (k v : jsstring) (o : object) : object :=
  match o with
  | [] => [(k, v)]
  | (k', v') :: o' =>
      match array_index k' with
      | Some m => if (m <? n)%N then (k', v') :: insert_index n k v o'
                  else (k, v) :: o
      | None => (k, v) :: o
      end
  end.

Definition proto_key : jsstring := str "__proto__".

(** Creating or overwriting the own property [k]. *)
Definition define_own (k v : jsstring) (o : object) : object :=
  match get_own k o with
  | Some _ => replace_own k v o
  | None =>
      match array_index k with
      | Some n => insert_index n k v o
      | None => o ++ [(k, v)]
      end
  end.

(** [o[k] = v] on an ordinary object.  Where the object has no own property
    [__proto__], the name is the accessor of [Object.prototype], whose setter
    ignores a string. *)
Definition set (k v : jsstring) (o : object) : object :=
  match get_own k o with
  | Some _ => define_own k v o
  | None => if eqb_str k proto_key then o else define_own k v o
  end.

Definition eqb_object (a b : object) : bool :=
  (length a =? length b)%nat
  && forallb (fun p => eqb_str (fst (fst p)) (fst (snd p))
                       && eqb_str (snd (fst p)) (snd (snd p)))
             (combine a b).

(** The function members of [Object.prototype]. *)
Definition prototype_functions : list jsstring :=
  [ str "constructor"; str "__defineGetter__"; str "__defineSetter__";
    str "hasOwnProperty"; str "__lookupGetter__"; str "__lookupSetter__";
    str "isPrototypeOf"; str "propertyIsEnumerable"; str "toString";
    str "valueOf"; str "toLocaleString" ].

Definition is_prototype_function (k : jsstring) : bool :=
  existsb (eqb_str k) prototype_functions.

(** [String(o[k] || '')]: an own property, else what [Object.prototype]
    holds under that name, else [undefined]. *)
Definition read (k : jsstring) (o : object) : jsstring :=
  match get_own k o with
  | Some v => v
  | None =>
      if eqb_str k proto_key then str "[object Object]"
      else if eqb_str k (str "constructor")
      then str "function Object() { [native code] }"
      else if is_prototype_function k
      then str "function " ++ k ++ str "() { [native code] }"
      else []
  end.

End Js.

Import Js.

(** ** Results of code that can throw *)

Inductive Error : Type :=
| TypeError
| FormatError (expected : N) (actual : nat)
| IndexError
| DatasetMismatchError (message : jsstring).

Inductive result (A : Type) : Type :=
| OK (a : A)
| Throw (e : Error).

Arguments OK {A} a.
Arguments Throw {A} e.

Definition bind {A B : Type} (r : result A) (f : A -> result B) : result B :=
  match r with
  | OK a => f a
  | Throw e => Throw e
  end.

Notation "x <- r ;; k" := (bind r (fun x => k))
  (at level 61, r at next level, right associativity).

(** A [for] loop whose body can throw. *)
Fixpoint foldM {A S : Type} (f : S -> A -> result S) (l : list A) (s : S)
  : result S :=
  match l with
  | [] => OK s
  | a :: l' => s' <- f s a ;; foldM f l' s'
  end.

(** ** The document model ([src/lib/parser/types.ts], as the parser and the
    generator use it) *)

(** A row: a record from column name to string value. *)
Definition Row := object.

(** A [TqlDocument]; the field [table] holds [doc.table.rows], and so on. *)
Record TqlDocument : Type := mkDoc {
  table : list Row;
  meaning : list Row;
  structure : list Row;
  ambiguity : list Row;
  intent : list Row;
  context : list Row;
  query : list Row;
  tasks : list Row;
  score : list Row
}.

Inductive FacetKind : Type :=
| Table | Meaning | Structure | Ambiguity | Intent | Context | Query | Tasks
| Score.

(** The fixed order in which the facets are written. *)
Definition all_facets : list FacetKind :=
  [Table; Meaning; Structure; Ambiguity; Intent; Context; Query; Tasks; Score].

Definition facet_name (k : FacetKind) : jsstring :=
  match k with
  | Table => str "table"
  | Meaning => str "meaning"
  | Structure => str "structure"
  | Ambiguity => str "ambiguity"
  | Intent => str "intent"
  | Context => str "context"
  | Query => str "query"
  | Tasks => str "tasks"
  | Score => str "score"
  end.

Definition rows_of (k : FacetKind) (d : TqlDocument) : list Row :=
  match k with
  | Table => table d
  | Meaning => meaning d
  | Structure => structure d
  | Ambiguity => ambiguity d
  | Intent => intent d
  | Context => context d
  | Query => query d
  | Tasks => tasks d
  | Score => score d
  end.

Definition set_rows (k : FacetKind) (rs : list Row) (d : TqlDocument)
  : TqlDocument :=
  match k with
  | Table => mkDoc rs (meaning d) (structure d) (ambiguity d) (intent d)
               (context d) (query d) (tasks d) (score d)
  | Meaning => mkDoc (table d) rs (structure d) (ambiguity d) (intent d)
                 (context d) (query d) (tasks d) (score d)
  | Structure => mkDoc (table d) (meaning d) rs (ambiguity d) (intent d)
                   (context d) (query d) (tasks d) (score d)
  | Ambiguity => mkDoc (table d) (meaning d) (structure d) rs (intent d)
                   (context d) (query d) (tasks d) (score d)
  | Intent => mkDoc (table d) (meaning d) (structure d) (ambiguity d) rs
                (context d) (query d) (tasks d) (score d)
  | Context => mkDoc (table d) (meaning d) (structure d) (ambiguity d)
                 (intent d) rs (query d) (tasks d) (score d)
  | Query => mkDoc (table d) (meaning d) (structure d) (ambiguity d)
               (intent d) (context d) rs (tasks d) (score d)
  | Tasks => mkDoc (table d) (meaning d) (structure d) (ambiguity d)
               (intent d) (context d) (query d) rs (score d)
  | Score => mkDoc (table d) (meaning d) (structure d) (ambiguity d)
               (intent d) (context d) (query d) (tasks d) rs
  end.

(** [doc.<facet>.rows.push(row)] *)
Definition push_row (k : FacetKind) (row : Row) (d : TqlDocument)
  : TqlDocument :=
  set_rows k (rows_of k d ++ [row]) d.

(** The document [parseTqlDocumentFromString] starts from. *)
Definition empty_doc : TqlDocument := mkDoc [] [] [] [] [] [] [] [] [].

(** ** The generator *)

Module Generator.

(** The column list of each facet's section; the table facet takes the keys
    of its first row, and a single [index] column when it has no row. *)
Definition facet_headers (k : FacetKind) (d : TqlDocument) : list jsstring :=
  match k with
  | Table =>
      match table d with
      | [] => [str "index"]
      | firstRow :: _ => keys firstRow
      end
  | Meaning => [str "index"; str "column"; str "definition"]
  | Structure =>
      [str "index"; str "column"; str "nullAllowed"; str "dataType";
       str "minValue"; str "maxValue"; str "format"]
  | Ambiguity =>
      [str "index"; str "query_trigger"; str "ambiguity_type";
       str "ambiguity_risk"]
  | Intent =>
      [str "index"; str "query_trigger"; str "clarifying_question";
       str "options"; str "user_response"; str "user_confirmed"]
  | Context => [str "index"; str "key"; str "value"]
  | Query => [str "index"; str "user_message"; str "timestamp_utc"]
  | Tasks => [str "index"; str "name"; str "description"; str "formula"]
  | Score => [str "index"; str "measure"; str "value"]
  end.

(** [colWidths] of [generateTable].  [Math.max(...lengths)] is the greatest
    length; the limit an engine puts on the number of arguments of a call is
    outside the model. *)
Definition colWidths (headers : list jsstring) (rows : list Row) : list nat :=
  map (fun header =>
         let headerWidth := length header in
         let maxDataWidth :=
           match rows with
           | [] => 0
           | _ => list_max (map (fun row => length (read header row)) rows)
           end in
         Nat.max headerWidth maxDataWidth)
      headers.

(** One line of a table: the cells padded to their columns' widths. *)
Definition table_line (cells : list jsstring) (widths : list nat) : jsstring :=
  str "| "
  ++ join (str " | ") (map (fun cw => padEnd (fst cw) (snd cw))
                           (combine cells widths))
  ++ str " |".

Definition separator_line (widths : list nat) : jsstring :=
  str "|" ++ join (str "|") (map (fun w => repeat c_dash (w + 2)) widths)
  ++ str "|".

(** The cells of a data row: [String(row[h] || '')] for each column. *)
Definition cells_of (headers : list jsstring) (row : Row) : list jsstring :=
  map (fun h => read h row) headers.

Definition data_line (headers : list jsstring) (widths : list nat) (row : Row)
  : jsstring :=
  table_line (cells_of headers row) widths.

Definition facet_line (facetName : jsstring) (rowCount : nat) : jsstring :=
  str "@" ++ facetName ++ str "[" ++ number_to_string rowCount ++ str "]:".

(** The lines [generateTable] pushes. *)
Definition table_lines (headers : list jsstring) (rows : list Row)
  (rowCount : nat) (facetName : jsstring) : list jsstring :=
  let widths := colWidths headers rows in
  facet_line facetName rowCount
  :: table_line headers widths
  :: separator_line widths
  :: map (data_line headers widths) rows.

Definition generateTable (headers : list jsstring) (rows : list Row)
  (rowCount : nat) (facetName : jsstring) : jsstring :=
  join [c_lf] (table_lines headers rows rowCount facetName).

(** [generateTableSection], [generateMeaningSection], ... *)
Definition generateSection (k : FacetKind) (d : TqlDocument) : jsstring :=
  generateTable (facet_headers k d) (rows_of k d) (length (rows_of k d))
    (facet_name k).

Definition generateTqlFromJson (doc : TqlDocument) : jsstring :=
  join [c_lf; c_lf]
    [ generateSection Table doc; generateSection Meaning doc;
      generateSection Structure doc; generateSection Ambiguity doc;
      generateSection Intent doc; generateSection Context doc;
      generateSection Query doc; generateSection Tasks doc;
      generateSection Score doc ].

End Generator.

(** ** The parser *)

Module Parser.

(** [parseTableRow]: drop the first and the last character of the trimmed
    line, split at the pipes, trim each cell. *)
Definition parseTableRow (line : jsstring) : list jsstring :=
  let trimmed := slice_1_m1 (trim line) in
  map trim (split c_pipe trimmed).

Definition sep_class (c : char) : bool :=
  N.eqb c c_dash || is_ws c || N.eqb c c_pipe.

(** [isSeparatorRow]: [/^\|[-\s|]+\|$/]. *)
Definition isSeparatorRow (line : jsstring) : bool :=
  match line with
  | [] => false
  | c :: rest =>
      N.eqb c c_pipe
      && match rev rest with
         | [] => false
         | l :: middle =>
             N.eqb l c_pipe && negb (is_empty middle)
             && forallb sep_class middle
         end
  end.

(** [isTableRow] *)
Definition isTableRow (line : jsstring) : bool := startsWith line (str "|").

(** One or more characters of a class, greedily, then the rest. *)
Definition plus (p : char -> bool) (s : jsstring)
  : option (jsstring * jsstring) :=
  match span p s with
  | ([], _) => None
  | (a, b) => Some (a, b)
  end.

(** [parseFacetHeader]: the first group of a match of [/^@(\w+)\[\d+\]:/]. *)
Definition parseFacetHeader (line : jsstring) : option jsstring :=
  match strip_prefix (str "@") line with
  | None => None
  | Some r1 =>
      match plus is_word r1 with
      | None => None
      | Some (name, r2) =>
          match strip_prefix (str "[") r2 with
          | None => None
          | Some r3 =>
              match plus is_digit r3 with
              | None => None
              | Some (_, r4) =>
                  match strip_prefix (str "]:") r4 with
                  | None => None
                  | Some _ => Some name
                  end
              end
          end
      end
  end.

(** What [FACET_REGISTRY[facet]] evaluates to.  [FACET_REGISTRY] is an object
    literal, so a name it does not own is looked up on [Object.prototype]. *)
Inductive RegistryValue : Type :=
| Append (k : FacetKind)
| ObjectConstructor
| ObjectToString
| ObjectMethod
| ObjectPrototype
| Undefined.

Definition own_facet (facet : jsstring) : option FacetKind :=
  find (fun k => eqb_str facet (facet_name k)) all_facets.

Definition registry_lookup (facet : jsstring) : RegistryValue :=
  match own_facet facet with
  | Some k => Append k
  | None =>
      if eqb_str facet proto_key then ObjectPrototype
      else if eqb_str facet (str "constructor") then ObjectConstructor
      else if eqb_str facet (str "toString") then ObjectToString
      else if is_prototype_function facet then ObjectMethod
      else Undefined
  end.

(** [addRowToFacet]: [if (addRow) addRow(doc, row)].  An inherited value is
    truthy and is called with [this] undefined (module code is strict):
    [Object(doc, row)] and [toString()] return, every other method of
    [Object.prototype] throws a TypeError at [ToObject(this)], and the
    prototype object itself is not callable. *)
Definition addRowToFacet (doc : TqlDocument) (facet : jsstring) (row : Row)
  : result TqlDocument :=
  match registry_lookup facet with
  | Append k => OK (push_row k row doc)
  | ObjectConstructor | ObjectToString => OK doc
  | ObjectMethod | ObjectPrototype => Throw TypeError
  | Undefined => OK doc
  end.

(** The variables of the loop of [parseTqlDocumentFromString]. *)
Record State : Type := mkState {
  doc : TqlDocument;
  currentFacet : option jsstring;
  currentHeaders : list jsstring;
  inDataSection : bool;
  headerParsed : bool
}.

Definition init (d : TqlDocument) : State := mkState d None [] false false.

(** [cells[j] || ''] *)
Definition cell_at (cells : list jsstring) (j : nat) : jsstring :=
  nth j cells [].

(** [for (const [j, currentHeader] of currentHeaders.entries())
       row[currentHeader] = cells[j] || ''] *)
Fixpoint build_row (headers : list jsstring) (cells : list jsstring) (j : nat)
  (row : Row) : Row :=
  match headers with
  | [] => row
  | h :: hs => build_row hs cells (S j) (set h (cell_at cells j) row)
  end.

(** The body of the loop, on one line. *)
Definition step (st : State) (line_ : jsstring) : result State :=
  let line := trim line_ in
  if is_empty line && negb (is_empty (currentHeaders st)) then
    OK (mkState (doc st) (currentFacet st) [] false false)
  else
    match parseFacetHeader line with
    | Some facetName => OK (mkState (doc st) (Some facetName) [] true false)
    | None =>
        match currentFacet st with
        | None => OK st
        | Some facet =>
            if is_empty line then OK st
            else if isSeparatorRow line then
              OK (mkState (doc st) (currentFacet st) (currentHeaders st)
                    (inDataSection st) true)
            else if inDataSection st && isTableRow line
                    && negb (headerParsed st) && is_empty (currentHeaders st)
            then
              OK (mkState (doc st) (currentFacet st) (parseTableRow line)
                    (inDataSection st) (headerParsed st))
            else if inDataSection st && headerParsed st && isTableRow line
            then
              let cells := parseTableRow line in
              let row := build_row (currentHeaders st) cells 0 [] in
              doc' <- addRowToFacet (doc st) facet row ;;
              OK (mkState doc' (currentFacet st) (currentHeaders st)
                    (inDataSection st) (headerParsed st))
            else OK st
        end
    end.

Definition parse_lines (lines : list jsstring) (st : State) : result State :=
  foldM step lines st.

Definition parseTqlDocumentFromString (content : jsstring)
  : result TqlDocument :=
  st <- parse_lines (split c_lf content) (init empty_doc) ;;
  OK (doc st).

(** A facet name whose lookup in the registry cannot throw. *)
Definition safe_name (facet : jsstring) : bool :=
  match registry_lookup facet with
  | ObjectMethod | ObjectPrototype => false
  | _ => true
  end.

Definition safe_state (st : Parser.State) : Prop :=
  match currentFacet st with
  | Some facet => safe_name facet = true
  | None => True
  end.

End Parser.

(** ** The diff of two documents *)

Module Diff.

(** Modelled from the spec: [src/lib/operations/diff.ts] is not among the
    sources.  Section 4.4: the result carries a classification of each facet
    and, for each 1-based row position, a change record with the row before
    and the row after. *)
Inductive ChangeType : Type := added | removed | modified | unchanged.

Record RowChange : Type := mkRowChange {
  index : nat;
  changeType : ChangeType;
  before : option Row;
  after : option Row
}.

Record FacetDiff : Type := mkFacetDiff {
  facet : FacetKind;
  status : ChangeType;
  changes : list RowChange
}.

Record TqlDiff : Type := mkTqlDiff {
  facets : list FacetDiff;
  facetsModified : nat;
  facetsUnchanged : nat;
  totalChanges : nat
}.

End Diff.

(** ** Conversations *)

(** The value of a sequence entry [{[key]: value}]. *)
Inductive SequenceValue : Type :=
| DocumentValue (d : TqlDocument)
| DiffValue (d : Diff.TqlDiff).

Definition SequenceItem : Type := jsstring * SequenceValue.

Record TqlConversation : Type := mkConversation {
  sequence : list SequenceItem
}.

Module Conversation.

Import Parser.

(** The first group of a match of [/^#conversation\[(\d+)\]:/]. *)
Definition match_conversation (line : jsstring) : option jsstring :=
  match strip_prefix (str "#conversation[") line with
  | None => None
  | Some r1 =>
      match plus is_digit r1 with
      | None => None
      | Some (digits, r2) =>
          match strip_prefix (str "]:") r2 with
          | None => None
          | Some _ => Some digits
          end
      end
  end.

(** The first group of a match of [/^(#document\[\+\d+\]):/]. *)
Definition match_document (line : jsstring) : option jsstring :=
  match strip_prefix (str "#document[+") line with
  | None => None
  | Some r1 =>
      match plus is_digit r1 with
      | None => None
      | Some (digits, r2) =>
          match strip_prefix (str "]:") r2 with
          | None => None
          | Some _ => Some (str "#document[+" ++ digits ++ str "]")
          end
      end
  end.

(** The first group of a match of [/^(\$diff\[\+\d+→\+\d+\]):/]. *)
Definition match_diff (line : jsstring) : option jsstring :=
  match strip_prefix (str "$diff[+") line with
  | None => None
  | Some r1 =>
      match plus is_digit r1 with
      | None => None
      | Some (i, r2) =>
          match strip_prefix (c_arrow :: str "+") r2 with
          | None => None
          | Some r3 =>
              match plus is_digit r3 with
              | None => None
              | Some (j, r4) =>
                  match strip_prefix (str "]:") r4 with
                  | None => None
                  | Some _ =>
                      Some (str "$diff[+" ++ i ++ c_arrow :: str "+" ++ j
                            ++ str "]")
                  end
              end
          end
      end
  end.

(** [addItemToSequence]: a document section is parsed and pushed, a diff
    section is skipped. *)
Definition addItemToSequence (seq : list SequenceItem) (key content : jsstring)
  : result (list SequenceItem) :=
  if startsWith key (str "#document") then
    doc <- parseTqlDocumentFromString content ;;
    OK (seq ++ [(key, DocumentValue doc)])
  else if startsWith key (str "$diff") then OK seq
  else OK seq.

(** [if (currentItemKey && currentItemContent.length > 0)
       addItemToSequence(sequence, currentItemKey,
                         currentItemContent.join('\n'))] *)
Definition flush (seq : list SequenceItem) (currentItemKey : option jsstring)
  (currentItemContent : list jsstring) : result (list SequenceItem) :=
  match currentItemKey with
  | None => OK seq
  | Some key =>
      if is_empty key || is_empty currentItemContent then OK seq
      else addItemToSequence seq key (join [c_lf] currentItemContent)
  end.

(** The variables of the loop of [parseTqlConversationFromString]. *)
Record State : Type := mkState {
  items : list SequenceItem;
  currentItemKey : option jsstring;
  currentItemContent : list jsstring
}.

Definition open_item (st : State) (key : jsstring) : result State :=
  seq <- flush (items st) (currentItemKey st) (currentItemContent st) ;;
  OK (mkState seq (Some key) []).

Definition step (st : State) (line : jsstring) : result State :=
  match match_document line with
  | Some key => open_item st key
  | None =>
      match match_diff line with
      | Some key => open_item st key
      | None =>
          match currentItemKey st with
          | Some key =>
              if is_empty key then OK st
              else OK (mkState (items st) (currentItemKey st)
                         (currentItemContent st ++ [line]))
          | None => OK st
          end
      end
  end.

Definition is_document_item (item : SequenceItem) : bool :=
  startsWith (fst item) (str "#document").

(** The sequence the loop and the final flush build from the lines after
    the header. *)
Definition scan (body : list jsstring) : result (list SequenceItem) :=
  st <- foldM step body (mkState [] None []) ;;
  flush (items st) (currentItemKey st) (currentItemContent st).

Definition parseTqlConversationFromString (content : jsstring)
  : result TqlConversation :=
  let lines := split c_lf content in
  let conversationMatch :=
    match lines with
    | [] => None
    | first :: _ => match_conversation first
    end in
  match conversationMatch with
  | None =>
      doc <- parseTqlDocumentFromString content ;;
      OK (mkConversation [(str "#document[+0]", DocumentValue doc)])
  | Some digits =>
      let expectedDocCount := parseInt digits in
      seq <- scan (tl lines) ;;
      let actualDocCount := length (filter is_document_item seq) in
      if N.eqb (N.of_nat actualDocCount) expectedDocCount
      then OK (mkConversation seq)
      else Throw (FormatError expectedDocCount actualDocCount)
  end.

End Conversation.

(** ** Row operations *)

Module Crud.

(** Modelled from the spec: [src/lib/operations/crud.ts] is not among the
    sources; only its callers are.  Section 4.3: [updateRow] takes a 1-based
    index, merges the fields of the patch into the row at that position and
    fails with an IndexError outside [1, rowCount]. *)
Definition merge (row patch : Row) : Row :=
  fold_left (fun r kv => define_own (fst kv) (snd kv) r) patch row.

Definition in_range (index : Z) (rowCount : nat) : bool :=
  ((1 <=? index) && (index <=? Z.of_nat rowCount))%Z.

Fixpoint update_at (n : nat) (f : Row -> Row) (rows : list Row) : list Row :=
  match rows, n with
  | [], _ => []
  | r :: rs, O => f r :: rs
  | r :: rs, S n' => r :: update_at n' f rs
  end.

Definition updateRowInMemory (doc : TqlDocument) (facet : FacetKind)
  (index : Z) (patch : Row) : result TqlDocument :=
  let rows := rows_of facet doc in
  if in_range index (length rows) then
    OK (set_rows facet
          (update_at (Z.to_nat (index - 1)) (fun r => merge r patch) rows) doc)
  else Throw IndexError.

(** Modelled from the spec: [insertRow] appends the row at the end of the
    facet's rows. *)
Definition insertRowInMemory (doc : TqlDocument) (facet : FacetKind)
  (row : Row) : TqlDocument :=
  push_row facet row doc.

Fixpoint remove_positions (i : Z) (indices : list Z) (rows : list Row)
  : list Row :=
  match rows with
  | [] => []
  | r :: rs =>
      if existsb (Z.eqb i) indices then remove_positions (i + 1) indices rs
      else r :: remove_positions (i + 1) indices rs
  end.

(** Modelled from the spec: [deleteRows] resolves every index against the
    rows as they were before the call. *)
Definition deleteRowsInMemory (doc : TqlDocument) (facet : FacetKind)
  (indices : list Z) : result TqlDocument :=
  let rows := rows_of facet doc in
  if forallb (fun i => in_range i (length rows)) indices then
    OK (set_rows facet (remove_positions 1 indices rows) doc)
  else Throw IndexError.

Definition deleteRowInMemory (doc : TqlDocument) (facet : FacetKind)
  (index : Z) : result TqlDocument :=
  deleteRowsInMemory doc facet [index].

End Crud.

Module DiffEngine.

Import Diff.

Definition eqb_rows (a b : list Row) : bool :=
  (length a =? length b)%nat
  && forallb (fun p => eqb_object (fst p) (snd p)) (combine a b).

Definition mismatch_message : jsstring :=
  str "DIFF operations can only be performed on matching datasets".

(** Modelled from the spec: rows are compared by position, from index [i]. *)
Fixpoint added_rows (i : nat) (a : list Row) : list RowChange :=
  match a with
  | [] => []
  | ra :: a' => mkRowChange i added None (Some ra) :: added_rows (S i) a'
  end.

Fixpoint diff_rows (i : nat) (b a : list Row) : list RowChange :=
  match b with
  | [] => added_rows i a
  | rb :: b' =>
      match a with
      | [] =>
          mkRowChange i removed (Some rb) None :: diff_rows (S i) b' []
      | ra :: a' =>
          mkRowChange i (if eqb_object rb ra then unchanged else modified)
            (Some rb) (Some ra)
          :: diff_rows (S i) b' a'
      end
  end.

Definition is_change (c : RowChange) : bool :=
  match changeType c with unchanged => false | _ => true end.

Definition diff_facet (k : FacetKind) (d1 d2 : TqlDocument) : FacetDiff :=
  let b := rows_of k d1 in
  let a := rows_of k d2 in
  let cs := filter is_change (diff_rows 1 b a) in
  let st :=
    if is_empty cs then unchanged
    else if is_empty b then added
    else if is_empty a then removed
    else modified in
  mkFacetDiff k st cs.

Definition facet_changed (f : FacetDiff) : bool :=
  match status f with unchanged => false | _ => true end.

(** Modelled from the spec: the table facets are compared first, and nothing
    is computed when they differ; the other eight facets are then compared
    one by one. *)
Definition diffTqlDocuments (d1 d2 : TqlDocument) : result TqlDiff :=
  if eqb_rows (table d1) (table d2) then
    let fs := map (fun k => diff_facet k d1 d2) (tl all_facets) in
    OK (mkTqlDiff fs
          (length (filter facet_changed fs))
          (length (filter (fun f => negb (facet_changed f)) fs))
          (list_sum (map (fun f => length (changes f)) fs)))
  else Throw (DatasetMismatchError mismatch_message).

End DiffEngine.

(** ** Sections of a conversation body, as the grammar of section 6 reads
    them *)

Module Sections.

Import Conversation.

(** The key of a [#document[+n]:] or [$diff[+i→+j]:] header line. *)
Definition header_key (line : jsstring) : option jsstring :=
  match match_document line with
  | Some key => Some key
  | None => match_diff line
  end.

(** The sections that follow an open section [key], whose lines so far are
    [content]: each is a key with the lines up to the next header. *)
Fixpoint sections_from (key : jsstring) (content lines : list jsstring)
  : list (jsstring * list jsstring) :=
  match lines with
  | [] => [(key, content)]
  | l :: ls =>
      match header_key l with
      | Some key' => (key, content) :: sections_from key' [] ls
      | None => sections_from key (content ++ [l]) ls
      end
  end.

(** The sections of a body; lines before the first header belong to none. *)
Fixpoint sections (lines : list jsstring) : list (jsstring * list jsstring) :=
  match lines with
  | [] => []
  | l :: ls =>
      match header_key l with
      | Some key => sections_from key [] ls
      | None => sections ls
      end
  end.

(** A document section with at least one line after its header. *)
Definition is_document_section (s : jsstring * list jsstring) : bool :=
  startsWith (fst s) (str "#document") && negb (is_empty (snd s)).

Definition document_sections (body : list jsstring)
  : list (jsstring * list jsstring) :=
  filter is_document_section (sections body).

(** The [#document[+n]:] header lines of a body. *)
Definition document_headers (body : list jsstring) : list jsstring :=
  filter (fun l => match match_document l with
                   | Some _ => true
                   | None => false
                   end)
         body.

(** The entries of the given document sections, parsed in order. *)
Fixpoint parse_sections (secs : list (jsstring * list jsstring))
  : result (list SequenceItem) :=
  match secs with
  | [] => OK []
  | (key, content) :: rest =>
      doc <- Parser.parseTqlDocumentFromString (join [c_lf] content) ;;
      items <- parse_sections rest ;;
      OK ((key, DocumentValue doc) :: items)
  end.

(** What [flush] does with one section. *)
Definition flush_section (seq : list SequenceItem)
  (s : jsstring * list jsstring) : result (list SequenceItem) :=
  flush seq (Some (fst s)) (snd s).

Definition finish (st : State) : result (list SequenceItem) :=
  flush (items st) (currentItemKey st) (currentItemContent st).

End Sections.

(** ** Documents and the text format *)

Module Plain.

Import Generator.

(** A cell the format can hold: no white space at its ends, no pipe and no
    line feed. *)
Definition clean (v : jsstring) : bool :=
  eqb_str (trim v) v && negb (existsb (N.eqb c_pipe) v)
  && negb (existsb (N.eqb c_lf) v).

(** Cells made of dashes, white space and pipes only: written as a table
    line they match [/^\|[-\s|]+\|$/]. *)
Definition renders_as_separator (cells : list jsstring) : bool :=
  forallb (forallb Parser.sep_class) cells.

Fixpoint eqb_strs (a b : list jsstring) : bool :=
  match a, b with
  | [], [] => true
  | x :: a', y :: b' => eqb_str x y && eqb_strs a' b'
  | _, _ => false
  end.

(** May the key [k] be enumerated before the key [k']?  Array indices come
    first, in ascending order, and no key comes twice. *)
Definition key_before (k k' : jsstring) : bool :=
  match array_index k, array_index k' with
  | Some n, Some m => (n <? m)%N
  | Some _, None => true
  | None, Some _ => false
  | None, None => negb (eqb_str k k')
  end.

(** The key lists [Object.keys] can return. *)
Fixpoint js_ordered (ks : list jsstring) : bool :=
  match ks with
  | [] => true
  | k :: ks' => forallb (key_before k) ks' && js_ordered ks'
  end.

(** Column names the format can hold. *)
Definition plain_headers (headers : list jsstring) : bool :=
  forallb clean headers && negb (renders_as_separator headers)
  && js_ordered headers && negb (existsb (eqb_str proto_key) headers).

(** A row whose cells, under the columns of the section, are clean. *)
Definition readable_row (headers : list jsstring) (row : Row) : bool :=
  forallb clean (cells_of headers row).

Definition readable_facet (k : FacetKind) (d : TqlDocument) : bool :=
  plain_headers (facet_headers k d)
  && forallb (readable_row (facet_headers k d)) (rows_of k d).

Definition readable_doc (d : TqlDocument) : bool :=
  forallb (fun k => readable_facet k d) all_facets.

(** A row that has exactly the columns of its section, with clean values. *)
Definition plain_row (headers : list jsstring) (row : Row) : bool :=
  eqb_strs (keys row) headers && forallb clean (map snd row).

Definition plain_facet (k : FacetKind) (d : TqlDocument) : bool :=
  plain_headers (facet_headers k d)
  && forallb (plain_row (facet_headers k d)) (rows_of k d).

Definition plain_doc (d : TqlDocument) : bool :=
  forallb (fun k => plain_facet k d) all_facets.

(** Is the line of the row read as a data row? *)
Definition is_data_row (headers : list jsstring) (row : Row) : bool :=
  negb (renders_as_separator (cells_of headers row)).

(** The row as its line shows it: a value for every column of the section,
    the empty string where the row has none. *)
Definition shown_row (headers : list jsstring) (row : Row) : Row :=
  combine headers (cells_of headers row).

(** The rows of a facet as the text shows them: the rows whose line is not
    read as a separator row. *)
Definition shown_rows (k : FacetKind) (d : TqlDocument) : list Row :=
  map (shown_row (facet_headers k d))
      (filter (is_data_row (facet_headers k d)) (rows_of k d)).

Definition shown (d : TqlDocument) : TqlDocument :=
  mkDoc (shown_rows Table d) (shown_rows Meaning d) (shown_rows Structure d)
        (shown_rows Ambiguity d) (shown_rows Intent d) (shown_rows Context d)
        (shown_rows Query d) (shown_rows Tasks d) (shown_rows Score d).

(** No row of the document is written as a separator row. *)
Definition no_separator_rows (d : TqlDocument) : bool :=
  forallb (fun k => forallb (is_data_row (facet_headers k d)) (rows_of k d))
          all_facets.

(** The lines of the section of a facet, and of the whole text. *)
Definition section_lines (k : FacetKind) (d : TqlDocument) : list jsstring :=
  table_lines (facet_headers k d) (rows_of k d) (length (rows_of k d))
    (facet_name k).

Fixpoint document_lines (ks : list FacetKind) (d : TqlDocument)
  : list jsstring :=
  match ks with
  | [] => []
  | [k] => section_lines k d
  | k :: ks' => section_lines k d ++ [] :: document_lines ks' d
  end.

(** The cells of a table line, padded. *)
Definition padded (cells : list jsstring) (widths : list nat)
  : list jsstring :=
  map (fun cw => padEnd (fst cw) (snd cw)) (combine cells widths).

(** The facets written so far, in a document under construction. *)
Fixpoint collect (ks : list FacetKind) (d acc : TqlDocument) : TqlDocument :=
  match ks with
  | [] => acc
  | k :: ks' =>
      collect ks' d (set_rows k (rows_of k acc ++ shown_rows k d) acc)
  end.


End Plain.

(** ** The conversation generator *)

Module ConversationGenerator.

Section WithCollaborators.

(** [getDocumentCount] of [types.ts] and [formatDiffAsMarkdown] of
    [operations/diff.ts] are not among the sources: they are parameters.
    The formatter receives the entry's value as it is ([value as any]). *)
Variable getDocumentCount : TqlConversation -> nat.
Variable formatDiffAsMarkdown : SequenceValue -> bool -> jsstring.

(** What the loop pushes for one entry.  A value that is no document has no
    [table] field, so [generateTqlFromJson] throws on it. *)
Definition item_sections (item : SequenceItem) : result (list jsstring) :=
  let key := fst item in
  let value := snd item in
  if startsWith key (str "#document") then
    match value with
    | DocumentValue doc =>
        OK [key ++ str ":"; Generator.generateTqlFromJson doc]
    | DiffValue _ => Throw TypeError
    end
  else if startsWith key (str "$diff") then
    OK [key ++ str ":"; formatDiffAsMarkdown value false]
  else OK [].

(** The body of the loop over the sequence: an empty string is pushed after
    every entry but the last. *)
Fixpoint sequence_sections (items : list SequenceItem)
  : result (list jsstring) :=
  match items with
  | [] => OK []
  | item :: rest =>
      pushed <- item_sections item ;;
      match rest with
      | [] => OK pushed
      | _ :: _ =>
          more <- sequence_sections rest ;;
          OK (pushed ++ [] :: more)
      end
  end.

Definition generateTqlFromConversation (conversation : TqlConversation)
  : result jsstring :=
  let docCount := getDocumentCount conversation in
  sections <- sequence_sections (sequence conversation) ;;
  OK (join [c_lf]
        ((str "#conversation[" ++ number_to_string docCount ++ str "]:")
         :: [] :: sections)).

End WithCollaborators.

(** A [#document[+n]] key. *)
Definition document_key (key : jsstring) : Prop :=
  exists digits : jsstring,
    digits <> [] /\ forallb is_digit digits = true
    /\ key = str "#document[+" ++ digits ++ str "]".

(** A [$diff[+i→+j]] key. *)
Definition diff_key (key : jsstring) : Prop :=
  exists i j : jsstring,
    i <> [] /\ forallb is_digit i = true
    /\ j <> [] /\ forallb is_digit j = true
    /\ key = str "$diff[+" ++ i ++ c_arrow :: str "+" ++ j ++ str "]".

(** An entry [generateTqlFromConversation] writes so that the parser finds
    it again: a document under a document key whose cells the format can
    hold, or a diff under a diff key whose text has no header line. *)
Definition written_item (format : SequenceValue -> bool -> jsstring)
  (item : SequenceItem) : Prop :=
  match snd item with
  | DocumentValue d =>
      document_key (fst item) /\ Plain.readable_doc d = true
  | DiffValue _ =>
      diff_key (fst item)
      /\ Forall (fun l => Sections.header_key l = None)
           (split c_lf (format (snd item) false))
  end.

(** The entries a parse of the written text returns: the documents, as the
    text shows them. *)
Fixpoint read_back (items : list SequenceItem) : list SequenceItem :=
  match items with
  | [] => []
  | (key, DocumentValue d) :: rest =>
      (key, DocumentValue (Plain.shown d)) :: read_back rest
  | (_, DiffValue _) :: rest => read_back rest
  end.

(** The text [generateTqlFromConversation] pushes after the header line of
    an entry. *)
Definition item_body (format : SequenceValue -> bool -> jsstring)
  (item : SequenceItem) : jsstring :=
  match snd item with
  | DocumentValue d => Generator.generateTqlFromJson d
  | DiffValue _ => format (snd item) false
  end.

(** The lines of the written text that belong to one entry, and to the
    entries of a sequence, with the empty line between two entries. *)
Definition item_lines (format : SequenceValue -> bool -> jsstring)
  (item : SequenceItem) : list jsstring :=
  (fst item ++ str ":") :: split c_lf (item_body format item).

Fixpoint sequence_lines (format : SequenceValue -> bool -> jsstring)
  (items : list SequenceItem) : list jsstring :=
  match items with
  | [] => []
  | item :: rest =>
      item_lines format item
      ++ match rest with
         | [] => []
         | _ :: _ => [] :: sequence_lines format rest
         end
  end.

(** The sections the parser finds in the written text: the empty line
    between two entries is the last line of the first. *)
Fixpoint written_sections (format : SequenceValue -> bool -> jsstring)
  (items : list SequenceItem) : list (jsstring * list jsstring) :=
  match items with
  | [] => []
  | item :: rest =>
      (fst item,
       split c_lf (item_body format item)
       ++ match rest with
          | [] => []
          | _ :: _ => [[]]
          end)
      :: written_sections format rest
  end.

End ConversationGenerator.

(** ** The score template *)

Module ScoreTemplate.

Definition measures : list jsstring :=
  [ str "range-values"; str "number-of-interpretations";
    str "Uncertainty Ratio (UR)"; str "Missing Certainty Ratio" ].

(** [generateScoreFacet] *)
Definition generateScoreFacet : jsstring :=
  let headers := [str "index"; str "measure"; str "value"] in
  let indexWidth :=
    Nat.max (length (str "index"))
            (length (number_to_string (length measures))) in
  let measureWidth :=
    Nat.max (list_max (map (fun m => length m) measures))
            (length (str "measure")) in
  let valueWidth := length (str "value") in
  join [c_lf]
    ((str "@score[" ++ number_to_string (length measures) ++ str "]:")
     :: (str "| " ++ padEnd (nth 0 headers []) indexWidth ++ str " | "
         ++ padEnd (nth 1 headers []) measureWidth ++ str " | "
         ++ padEnd (nth 2 headers []) valueWidth ++ str " |")
     :: (str "|" ++ repeat c_dash (indexWidth + 2) ++ str "|"
         ++ repeat c_dash (measureWidth + 2) ++ str "|"
         ++ repeat c_dash (valueWidth + 2) ++ str "|")
     :: map (fun im =>
               str "| " ++ padEnd (number_to_string (fst im + 1)) indexWidth
               ++ str " | " ++ padEnd (snd im) measureWidth ++ str " | "
               ++ repeat c_space valueWidth ++ str " |")
            (combine (seq 0 (length measures)) measures)).

(** The rows the template shows. *)
Definition score_rows : list Row :=
  map (fun im => [ (str "index", number_to_string (fst im + 1));
                   (str "measure", snd im); (str "value", []) ])
      (combine (seq 0 (length measures)) measures).

End ScoreTemplate.

(** ** Command-line input *)

Module Cli.

(** A value of [Number.parseInt] that is not NaN: an integer with its sign
    ([-0] is [Integer true 0]), or an infinity. *)
Inductive JsInteger : Type :=
| Integer (negative : bool) (magnitude : N)
| Infinity (negative : bool).

(** The Number value of a natural number: the nearest double, a tie going
    to the even significand of 53 bits, and no finite value from
    2^1024 - 2^970 on ([None]).  Every integer up to 2^53 is its own
    value. *)
Definition to_number (v : N) : option N :=
  if (v <? 2 ^ 53)%N then Some v
  else
    let e := (N.log2 v - 52)%N in
    let q := (v / 2 ^ e)%N in
    let r := (v mod 2 ^ e)%N in
    let half := (2 ^ (e - 1))%N in
    let q' :=
      if (half <? r)%N || ((r =? half)%N && N.odd q) then (q + 1)%N
      else q in
    let rounded := (q' * 2 ^ e)%N in
    if (rounded <? 2 ^ 1024)%N then Some rounded else None.

(** [Number.parseInt(s, 10)]: leading white space, a sign, then the longest
    run of digits; [None] is NaN.  The digits are read as the integer they
    write, of which the result is the Number value. *)
Definition parseInt10 (s : jsstring) : option JsInteger :=
  let s1 := trimStart s in
  let signed :=
    match s1 with
    | c :: r =>
        if N.eqb c 45 then (true, r)
        else if N.eqb c 43 then (false, r) else (false, s1)
    | [] => (false, [])
    end in
  match span is_digit (snd signed) with
  | ([], _) => None
  | (ds, _) =>
      Some (match to_number (parseInt ds) with
            | Some magnitude => Integer (fst signed) magnitude
            | None => Infinity (fst signed)
            end)
  end.

Inductive IndicesOutcome : Type :=
| Indices (indices : list JsInteger)
| InvalidIndicesFormat
| MustProvideIndex.

Fixpoint all_numbers (l : list (option JsInteger))
  : option (list JsInteger) :=
  match l with
  | [] => Some []
  | None :: _ => None
  | Some z :: l' =>
      match all_numbers l' with
      | Some zs => Some (z :: zs)
      | None => None
      end
  end.

(** The delete command when [--index] is not given, up to the call of
    [deleteRows]: [flags.indices.split(',').map((idx) =>
    Number.parseInt(idx.trim(), 10))], refused when one of them is NaN;
    without [--indices], or with an empty one, the command asks for an
    index. *)
Definition indices_of_flag (flag : option jsstring) : IndicesOutcome :=
  match flag with
  | None => MustProvideIndex
  | Some indices =>
      if is_empty indices then MustProvideIndex
      else
        match all_numbers (map (fun idx => parseInt10 (trim idx))
                               (split 44%N indices)) with
        | Some zs => Indices zs
        | None => InvalidIndicesFormat
        end
  end.

(** The CSV reader of [createFromCsvStdin]: [None] when the content is
    blank, else the trimmed cells of the first line and of the other
    lines. *)
Definition csv_of_stdin (csvContent : jsstring)
  : option (list jsstring * list (list jsstring)) :=
  if is_empty (trim csvContent) then None
  else
    let lines := split c_lf (trim csvContent) in
    let headers := map trim (split 44%N (hd [] lines)) in
    let rows := map (fun line => map trim (split 44%N line)) (tl lines) in
    Some (headers, rows).

(** A cell the comma-separated text can hold. *)
Definition csv_cell (v : jsstring) : bool :=
  eqb_str (trim v) v && negb (existsb (N.eqb 44%N) v)
  && negb (existsb (N.eqb c_lf) v).

(** The comma-separated text of a header line and rows. *)
Definition csv_text (headers : list jsstring) (rows : list (list jsstring))
  : jsstring :=
  join [c_lf] (map (join [44%N]) (headers :: rows)).

End Cli.

(** ** States of the parser that append nothing *)

Module Inert.

Import Parser.

(** A line that opens no facet. *)
Definition no_header (line : jsstring) : bool :=
  match parseFacetHeader (trim line) with Some _ => false | None => true end.

(** No facet is open, or the table of the open facet has ended, or the open
    facet has no entry in the registry. *)
Definition inert (st : State) : Prop :=
  match currentFacet st with
  | None => True
  | Some facet =>
      inDataSection st = false \/ registry_lookup facet = Undefined
  end.

(** A column name or value as the parser stores it. *)
Definition stored (v : jsstring) : Prop := trim v = v /\ ~ In c_pipe v.

Definition stored_rows (d : TqlDocument) : Prop :=
  forall (k : FacetKind) (row : Row) (name value : jsstring),
    In row (rows_of k d) -> In (name, value) row ->
    stored name /\ stored value.

End Inert.

(** ** Texts of the examples *)

(** A section whose facet name is a member of [Object.prototype]. *)
Definition proto_text : jsstring :=
  join [c_lf] [str "@__proto__[1]:"; str "| a |"; str "|---|"; str "| x |"].

(** A table section followed by a section named after the prototype. *)
Definition table_then_proto_text : jsstring :=
  join [c_lf]
    [ str "@table[1]:"; str "| id |"; str "|----|"; str "| 1  |"; str "";
      str "@__proto__[1]:"; str "| a |"; str "|---|"; str "| x |" ].

(** A conversation of two documents with a diff section between them. *)
Definition diff_text : jsstring :=
  join [c_lf]
    [ str "#conversation[2]:"; str "";
      str "#document[+0]:"; str "@table[0]:"; str "| index |"; str "|-------|";
      str "";
      str "$diff[+0" ++ c_arrow :: str "+1]:"; str "TQL DIFF";
      str "| - | 1 | id |"; str "";
      str "#document[+1]:"; str "@table[0]:"; str "| index |";
      str "|-------|" ].

(** A header that declares no document, and a document header with no line
    after it. *)
Definition empty_section_text : jsstring :=
  join [c_lf] [str "#conversation[0]:"; str "#document[+0]:"].

(** A header that declares one document, and two document headers of which
    the first has no line after it. *)
Definition two_headers_text : jsstring :=
  join [c_lf]
    [ str "#conversation[1]:"; str "#document[+0]:"; str "#document[+1]:";
      str "@table[0]:" ].

(** A header that declares two documents, and one document section. *)
Definition one_of_two_text : jsstring :=
  join [c_lf]
    [ str "#conversation[2]:"; str ""; str "#document[+0]:";
      str "@table[0]:"; str "| index |"; str "|-------|" ].

(** The document of the scenario of section 8: one table row, every other
    facet empty. *)
Definition scenario_doc : TqlDocument :=
  mkDoc [[(str "id", str "1"); (str "product", str "Widget");
          (str "price", str "9.99")]]
        [] [] [] [] [] [] [] [].

(** A document whose rows carry the columns of their sections. *)
Definition indexed_doc : TqlDocument :=
  mkDoc [[(str "id", str "1"); (str "product", str "Widget");
          (str "price", str "9.99")]]
        [[(str "index", str "1"); (str "column", str "id");
          (str "definition", str "Unique identifier")]]
        [] [] []
        [[(str "index", str "1"); (str "key", str "user_timezone");
          (str "value", str "MST")]]
        [] [] [].

(** The document above with a context row inserted whose key and value are
    empty. *)
Definition empty_row_doc : TqlDocument :=
  Crud.insertRowInMemory indexed_doc Context
    [(str "key", str ""); (str "value", str "")].



(** * Properties *)

(** ** Strings *)

Section StringFacts.

Lemma eqb_str_refl (a : jsstring) : eqb_str a a = true.
Proof.
  induction a as [|x a IH]; simpl; [reflexivity|].
  now rewrite N.eqb_refl, IH.
Qed.

Lemma eqb_str_eq (a b : jsstring) : eqb_str a b = true <-> a = b.
Proof.
  split; [|intros ->; apply eqb_str_refl].
  revert b; induction a as [|x a IH]; intros [|y b]; simpl; try discriminate.
  - reflexivity.
  - intros H. apply andb_prop in H as [H1 H2].
    apply N.eqb_eq in H1. apply IH in H2. now subst.
Qed.

Lemma eqb_str_neq (a b : jsstring) : eqb_str a b = false <-> a <> b.
Proof.
  split.
  - intros H E. apply eqb_str_eq in E. congruence.
  - intros H. destruct (eqb_str a b) eqn:E; [|reflexivity].
    apply eqb_str_eq in E. contradiction.
Qed.

Lemma join_cons (sep p : jsstring) (q : jsstring) (ps : list jsstring) :
  join sep (p :: q :: ps) = p ++ sep ++ join sep (q :: ps).
Proof. reflexivity. Qed.

Lemma padEnd_exact (s : jsstring) (w : nat) :
  w <= length s -> padEnd s w = s.
Proof.
  intros H. unfold padEnd.
  replace (w - length s) with 0 by lia. simpl. apply app_nil_r.
Qed.

Lemma padEnd_length (s : jsstring) (w : nat) :
  length s <= w -> length (padEnd s w) = w.
Proof.
  intros H. unfold padEnd. rewrite length_app, repeat_length. lia.
Qed.

Lemma split_cons (c : char) (s : jsstring) :
  exists (first : jsstring) (rest : list jsstring), split c s = first :: rest.
Proof. unfold split. destruct (split_aux c s) as [p ps]. now exists p, ps. Qed.

End StringFacts.

(** ** The generator writes every facet *)

Section GeneratorFacts.

Import Generator.



End GeneratorFacts.

(** ** Objects *)

Section ObjectFacts.

Lemma get_own_replace (c k v : jsstring) (o : object) :
  get_own c (replace_own k v o)
  = if eqb_str c k then match get_own k o with
                        | Some _ => Some v
                        | None => None
                        end
    else get_own c o.
Proof.
  induction o as [|[k' v'] o IH]; simpl.
  - now destruct (eqb_str c k).
  - destruct (eqb_str k k') eqn:Ek; simpl.
    + apply eqb_str_eq in Ek. subst k'.
      destruct (eqb_str c k) eqn:Ec; reflexivity.
    + destruct (eqb_str c k') eqn:Ec'.
      * apply eqb_str_eq in Ec'. subst k'.
        destruct (eqb_str c k) eqn:Ec; [|reflexivity].
        apply eqb_str_eq in Ec. subst c.
        rewrite eqb_str_refl in Ek. discriminate.
      * exact IH.
Qed.

Lemma get_own_app (c : jsstring) (o1 o2 : object) :
  get_own c (o1 ++ o2)
  = match get_own c o1 with Some v => Some v | None => get_own c o2 end.
Proof.
  induction o1 as [|[k' v'] o1 IH]; simpl; [reflexivity|].
  destruct (eqb_str c k'); [reflexivity|exact IH].
Qed.

Lemma get_own_define_own (c k v : jsstring) (o : object) :
  get_own c (define_own k v o)
  = if eqb_str c k then Some v else get_own c o.
Proof.
  unfold define_own.
  destruct (get_own k o) as [w|] eqn:Ek.
  - rewrite get_own_replace, Ek. reflexivity.
  - destruct (array_index k) as [n|].
    + destruct (eqb_str c k) eqn:Ec.
      * apply eqb_str_eq in Ec. subst c.
        clear - Ek. induction o as [|[k' v'] o IH]; simpl in *.
        -- now rewrite eqb_str_refl.
        -- destruct (eqb_str k k') eqn:E; [discriminate|].
           destruct (array_index k') as [m|]; [destruct (m <? n)%N|]; simpl;
             try rewrite E; try rewrite eqb_str_refl; auto.
      * clear Ek. induction o as [|[k' v'] o IH]; simpl.
        -- now rewrite Ec.
        -- destruct (array_index k') as [m|]; [destruct (m <? n)%N|]; simpl;
             try rewrite Ec; try rewrite IH; reflexivity.
    + rewrite get_own_app. simpl.
      destruct (eqb_str c k) eqn:Ec.
      * apply eqb_str_eq in Ec. subst c. now rewrite Ek.
      * now destruct (get_own c o).
Qed.

Lemma eqb_object_eq (a b : object) : eqb_object a b = true <-> a = b.
Proof.
  unfold eqb_object. split.
  - revert b; induction a as [|[k v] a IH]; intros [|[k' v'] b]; simpl;
      try discriminate; [reflexivity|].
    intros H. apply andb_prop in H as [Hl H].
    apply andb_prop in H as [Hkv H]. apply andb_prop in Hkv as [Hk Hv].
    apply eqb_str_eq in Hk, Hv. subst.
    f_equal. apply IH. now rewrite Hl, H.
  - intros <-. rewrite Nat.eqb_refl. simpl.
    induction a as [|[k v] a IH]; simpl; [reflexivity|].
    now rewrite !eqb_str_refl, IH.
Qed.

End ObjectFacts.

(** ** The document record *)

Section DocumentFacts.

Lemma rows_of_set_rows_same (k : FacetKind) (rs : list Row) (d : TqlDocument) :
  rows_of k (set_rows k rs d) = rs.
Proof. destruct k; reflexivity. Qed.

Lemma rows_of_set_rows_other (k k' : FacetKind) (rs : list Row)
  (d : TqlDocument) :
  k <> k' -> rows_of k (set_rows k' rs d) = rows_of k d.
Proof. destruct k, k'; intros H; try reflexivity; contradiction. Qed.

Lemma set_rows_rows_of (k : FacetKind) (d : TqlDocument) :
  set_rows k (rows_of k d) d = d.
Proof. destruct d, k; reflexivity. Qed.

End DocumentFacts.

(** ** Row operations *)

Section CrudFacts.

Import Crud.

Lemma get_own_not_key (c : jsstring) (o : object) :
  ~ In c (keys o) -> get_own c o = None.
Proof.
  induction o as [|[k v] o IH]; simpl; [reflexivity|].
  intros H. destruct (eqb_str c k) eqn:E.
  - apply eqb_str_eq in E. subst. exfalso. apply H. now left.
  - apply IH. intros Hin. apply H. now right.
Qed.

Lemma get_own_merge_untouched (c : jsstring) (patch row : Row) :
  get_own c patch = None -> get_own c (merge row patch) = get_own c row.
Proof.
  unfold merge. revert row.
  induction patch as [|[k v] p IH]; intros row H; simpl in *; [reflexivity|].
  destruct (eqb_str c k) eqn:E; [discriminate|].
  rewrite (IH _ H), get_own_define_own, E. reflexivity.
Qed.

Lemma get_own_merge_patched (c v : jsstring) (patch row : Row) :
  NoDup (keys patch) -> In (c, v) patch ->
  get_own c (merge row patch) = Some v.
Proof.
  revert row.
  induction patch as [|[k w] p IH]; intros row Hnd Hin; [contradiction|].
  simpl in Hnd. inversion Hnd as [|? ? Hk Hp]; subst.
  destruct Hin as [E|Hin].
  - inversion E; subst. unfold merge. simpl.
    fold (merge (define_own c v row) p).
    rewrite get_own_merge_untouched by now apply get_own_not_key.
    now rewrite get_own_define_own, eqb_str_refl.
  - unfold merge. simpl. fold (merge (define_own k w row) p).
    now apply IH.
Qed.

Lemma nth_error_update_at_same (n : nat) (f : Row -> Row) (rows : list Row) :
  nth_error (update_at n f rows) n = option_map f (nth_error rows n).
Proof.
  revert n; induction rows as [|r rs IH]; intros [|n]; simpl; auto.
Qed.

Lemma nth_error_update_at_other (n j : nat) (f : Row -> Row)
  (rows : list Row) :
  j <> n -> nth_error (update_at n f rows) j = nth_error rows j.
Proof.
  revert n j; induction rows as [|r rs IH]; intros [|n] [|j] H; simpl; auto;
    contradiction.
Qed.

(** C8. [updateRow] with a 1-based index outside [1, rowCount] fails with
    IndexError; inside the range it replaces the row at that position by the
    row merged with the patch, in which every field of the patch has the
    patch's value and every other field keeps its value, and leaves the other
    rows and the other facets alone.  On the document of the scenario the
    update of meaning row 1 fails while the meaning facet is empty, and after
    inserting [{column: "id", definition: ""}] it yields the row
    [{column: "id", definition: "Unique identifier"}]. *)
Theorem updateRow_index_and_merge :
  (forall (doc : TqlDocument) (facet : FacetKind) (index : Z) (patch : Row),
      (index < 1 \/ Z.of_nat (length (rows_of facet doc)) < index)%Z ->
      updateRowInMemory doc facet index patch = Throw IndexError)
  /\ (forall (doc : TqlDocument) (facet : FacetKind) (index : Z) (patch : Row),
        (1 <= index <= Z.of_nat (length (rows_of facet doc)))%Z ->
        exists (row : Row) (doc' : TqlDocument),
          nth_error (rows_of facet doc) (Z.to_nat (index - 1)) = Some row
          /\ updateRowInMemory doc facet index patch = OK doc'
          /\ nth_error (rows_of facet doc') (Z.to_nat (index - 1))
             = Some (merge row patch)
          /\ (forall j, j <> Z.to_nat (index - 1) ->
                nth_error (rows_of facet doc') j
                = nth_error (rows_of facet doc) j)
          /\ (forall k, k <> facet -> rows_of k doc' = rows_of k doc)
          /\ (forall c, get_own c patch = None ->
                get_own c (merge row patch) = get_own c row)
          /\ (forall c v, NoDup (keys patch) -> In (c, v) patch ->
                get_own c (merge row patch) = Some v))
  /\ updateRowInMemory scenario_doc Meaning 1
       [(str "definition", str "Unique identifier")]
     = Throw IndexError
  /\ updateRowInMemory
       (insertRowInMemory scenario_doc Meaning
          [(str "column", str "id"); (str "definition", str "")])
       Meaning 1 [(str "definition", str "Unique identifier")]
     = OK (mkDoc (table scenario_doc)
             [[(str "column", str "id");
               (str "definition", str "Unique identifier")]]
             [] [] [] [] [] [] []).
Proof.
  split; [|split; [|split]].
  - intros doc facet index patch H. unfold updateRowInMemory, in_range.
    destruct (1 <=? index)%Z eqn:E1; [|reflexivity].
    destruct (index <=? Z.of_nat (length (rows_of facet doc)))%Z eqn:E2;
      [|reflexivity].
    apply Z.leb_le in E1, E2. lia.
  - intros doc facet index patch [H1 H2].
    destruct (nth_error (rows_of facet doc) (Z.to_nat (index - 1)))
      as [row|] eqn:Hrow.
    2:{ apply nth_error_None in Hrow. lia. }
    exists row.
    eexists. split; [reflexivity|].
    unfold updateRowInMemory, in_range.
    apply Z.leb_le in H1, H2. rewrite H1, H2. simpl.
    split; [reflexivity|].
    rewrite rows_of_set_rows_same.
    split; [now rewrite nth_error_update_at_same, Hrow|].
    split; [intros j Hj; now apply nth_error_update_at_other|].
    split; [intros k Hk; now apply rows_of_set_rows_other|].
    split.
    + intros c Hc. now apply get_own_merge_untouched.
    + intros c v Hnd Hin. now apply get_own_merge_patched.
  - reflexivity.
  - reflexivity.
Qed.

(** The scenario of C8 as an instance of the general statement: index 1 is
    in range once a row has been inserted, and the merged row holds the
    patch's definition and the column it had. *)
Lemma updateRow_index_and_merge_witness :
  (1 <= 1 <= Z.of_nat (length (rows_of Meaning
     (insertRowInMemory scenario_doc Meaning
        [(str "column", str "id"); (str "definition", str "")]))))%Z
  /\ exists (row : Row) (doc' : TqlDocument),
       updateRowInMemory
         (insertRowInMemory scenario_doc Meaning
            [(str "column", str "id"); (str "definition", str "")])
         Meaning 1 [(str "definition", str "Unique identifier")] = OK doc'
       /\ nth_error (rows_of Meaning doc') 0
          = Some (merge row [(str "definition", str "Unique identifier")]).
Proof.
  assert (H : (1 <= 1 <= Z.of_nat (length (rows_of Meaning
     (insertRowInMemory scenario_doc Meaning
        [(str "column", str "id"); (str "definition", str "")]))))%Z)
    by (simpl; lia).
  split; [exact H|].
  destruct updateRow_index_and_merge as [_ [Hupd _]].
  destruct (Hupd _ Meaning 1%Z [(str "definition", str "Unique identifier")] H)
    as [row [doc' [_ [H2 [H3 _]]]]].
  exists row, doc'. split; [exact H2|exact H3].
Defined.

End CrudFacts.

(** ** The dataset guard of the diff *)

Section DiffFacts.

Import Diff DiffEngine.

Lemma eqb_rows_eq (a b : list Row) : eqb_rows a b = true <-> a = b.
Proof.
  unfold eqb_rows. split.
  - revert b; induction a as [|r a IH]; intros [|r' b]; simpl;
      try discriminate; [reflexivity|].
    intros H. apply andb_prop in H as [Hl H]. apply andb_prop in H as [Hr H].
    apply eqb_object_eq in Hr. subst. f_equal. apply IH. now rewrite Hl, H.
  - intros <-. rewrite Nat.eqb_refl. simpl.
    induction a as [|r a IH]; simpl; [reflexivity|].
    rewrite IH, andb_true_r. now apply eqb_object_eq.
Qed.

(** C2. When the rows of the table facets of [before] and [after] differ,
    [diff] fails with the DatasetMismatchError whose message is
    "DIFF operations can only be performed on matching datasets" and returns
    no diff; when they are identical it returns a diff. *)
Theorem diff_dataset_guard (before after : TqlDocument) :
  (table before <> table after ->
   diffTqlDocuments before after
   = Throw (DatasetMismatchError
              (str "DIFF operations can only be performed on matching datasets")))
  /\ (table before = table after ->
      exists d : TqlDiff, diffTqlDocuments before after = OK d).
Proof.
  unfold diffTqlDocuments. split; intros H.
  - destruct (eqb_rows (table before) (table after)) eqn:E; [|reflexivity].
    apply eqb_rows_eq in E. contradiction.
  - apply eqb_rows_eq in H. rewrite H. eexists. reflexivity.
Qed.

(** C2 on the documents of the example: changing the product of the first
    table row makes the diff fail, and the diff of a document with itself
    is computed. *)
Lemma diff_dataset_guard_witness :
  diffTqlDocuments scenario_doc
    (mkDoc [[(str "id", str "1"); (str "product", str "Changed");
             (str "price", str "9.99")]] [] [] [] [] [] [] [] [])
  = Throw (DatasetMismatchError
             (str "DIFF operations can only be performed on matching datasets"))
  /\ exists d : TqlDiff, diffTqlDocuments scenario_doc scenario_doc = OK d.
Proof.
  split.
  - apply (proj1 (diff_dataset_guard scenario_doc
       (mkDoc [[(str "id", str "1"); (str "product", str "Changed");
                (str "price", str "9.99")]] [] [] [] [] [] [] [] []))).
    simpl. intros H. discriminate H.
  - apply (proj2 (diff_dataset_guard scenario_doc scenario_doc)).
    reflexivity.
Defined.

End DiffFacts.

(** ** Conversations: what the scan keeps *)

Section ConversationFacts.

Import Parser Conversation Sections.

Lemma bind_OK {A : Type} (r : result A) : (a <- r ;; OK a) = r.
Proof. now destruct r. Qed.

Lemma match_document_key (l key : jsstring) :
  match_document l = Some key ->
  startsWith key (str "#document") = true /\ is_empty key = false.
Proof.
  unfold match_document. intros H.
  destruct (strip_prefix _ l) as [r1|]; [|discriminate].
  destruct (plus is_digit r1) as [[ds r2]|]; [|discriminate].
  destruct (strip_prefix _ r2); [|discriminate].
  inversion H. split; reflexivity.
Qed.

Lemma match_diff_key (l key : jsstring) :
  match_diff l = Some key ->
  startsWith key (str "#document") = false
  /\ startsWith key (str "$diff") = true /\ is_empty key = false.
Proof.
  unfold match_diff. intros H.
  destruct (strip_prefix _ l) as [r1|]; [|discriminate].
  destruct (plus is_digit r1) as [[ds r2]|]; [|discriminate].
  destruct (strip_prefix _ r2) as [r3|]; [|discriminate].
  destruct (plus is_digit r3) as [[ds' r4]|]; [|discriminate].
  destruct (strip_prefix _ r4); [|discriminate].
  inversion H. repeat split; reflexivity.
Qed.

Lemma header_key_nonempty (l key : jsstring) :
  header_key l = Some key -> is_empty key = false.
Proof.
  unfold header_key. destruct (match_document l) as [k|] eqn:E.
  - intros H. inversion H. subst. now apply match_document_key in E.
  - intros H. now apply match_diff_key in H.
Qed.

Lemma step_header (st : Conversation.State) (l key : jsstring) :
  header_key l = Some key -> Conversation.step st l = open_item st key.
Proof.
  unfold header_key, Conversation.step.
  destruct (match_document l); intros H; inversion H; subst; [reflexivity|].
  now rewrite H.
Qed.

Lemma step_content (st : Conversation.State) (l : jsstring) :
  header_key l = None ->
  Conversation.step st l
  = match currentItemKey st with
    | Some key =>
        if is_empty key then OK st
        else OK (Conversation.mkState (items st) (currentItemKey st)
                   (currentItemContent st ++ [l]))
    | None => OK st
    end.
Proof.
  unfold header_key, Conversation.step.
  destruct (match_document l); [discriminate|]. now intros ->.
Qed.

Lemma scan_open (lines : list jsstring) :
  forall (seq : list SequenceItem) (key : jsstring) (content : list jsstring),
    is_empty key = false ->
    (st <- foldM Conversation.step lines
             (Conversation.mkState seq (Some key) content) ;; finish st)
    = foldM flush_section (sections_from key content lines) seq.
Proof.
  induction lines as [|l ls IH]; intros seq key content Hkey.
  - cbn [foldM sections_from bind]. unfold finish, flush_section.
    cbn [items currentItemKey currentItemContent fst snd].
    now rewrite bind_OK.
  - cbn [foldM sections_from].
    destruct (header_key l) as [key'|] eqn:Hh.
    + rewrite (step_header _ _ Hh). unfold open_item.
      cbn [foldM items currentItemKey currentItemContent].
      unfold flush_section at 1. cbn [fst snd].
      destruct (flush seq (Some key) content) as [seq'|e]; cbn [bind];
        [|reflexivity].
      apply IH. now apply header_key_nonempty in Hh.
    + rewrite (step_content _ _ Hh).
      cbn [items currentItemKey currentItemContent]. rewrite Hkey.
      cbn [bind]. now apply IH.
Qed.

Lemma scan_closed (lines : list jsstring) (seq : list SequenceItem) :
  (st <- foldM Conversation.step lines (Conversation.mkState seq None []) ;;
   finish st)
  = foldM flush_section (sections lines) seq.
Proof.
  induction lines as [|l ls IH]; [reflexivity|].
  cbn [foldM sections].
  destruct (header_key l) as [key'|] eqn:Hh.
  - rewrite (step_header _ _ Hh). unfold open_item.
    cbn [items currentItemKey currentItemContent flush bind].
    apply scan_open. now apply header_key_nonempty in Hh.
  - rewrite (step_content _ _ Hh).
    cbn [items currentItemKey currentItemContent bind]. exact IH.
Qed.

Lemma sections_from_keys (lines : list jsstring) :
  forall (key : jsstring) (content : list jsstring),
    is_empty key = false ->
    (startsWith key (str "#document") = true
     \/ startsWith key (str "$diff") = true) ->
    Forall (fun s => is_empty (fst s) = false
                     /\ (startsWith (fst s) (str "#document") = true
                         \/ startsWith (fst s) (str "$diff") = true))
           (sections_from key content lines).
Proof.
  induction lines as [|l ls IH]; intros key content Hk Hs; simpl.
  - constructor; [now split|constructor].
  - destruct (header_key l) as [key'|] eqn:Hh.
    + constructor; [now split|].
      apply IH; [now apply header_key_nonempty in Hh|].
      unfold header_key in Hh.
      destruct (match_document l) as [k|] eqn:E.
      * inversion Hh; subst. left. now apply match_document_key in E.
      * right. now apply match_diff_key in Hh.
    + now apply IH.
Qed.

Lemma sections_keys (lines : list jsstring) :
  Forall (fun s => is_empty (fst s) = false
                   /\ (startsWith (fst s) (str "#document") = true
                       \/ startsWith (fst s) (str "$diff") = true))
         (sections lines).
Proof.
  induction lines as [|l ls IH]; simpl; [constructor|].
  destruct (header_key l) as [key'|] eqn:Hh; [|exact IH].
  apply sections_from_keys; [now apply header_key_nonempty in Hh|].
  unfold header_key in Hh.
  destruct (match_document l) as [k|] eqn:E.
  - inversion Hh; subst. left. now apply match_document_key in E.
  - right. now apply match_diff_key in Hh.
Qed.

Lemma flush_sections (secs : list (jsstring * list jsstring)) :
  Forall (fun s => is_empty (fst s) = false) secs ->
  forall seq : list SequenceItem,
    foldM flush_section secs seq
    = (its <- parse_sections (filter is_document_section secs) ;;
       OK (seq ++ its)).
Proof.
  induction 1 as [|[key content] secs Hk _ IH]; intros seq; simpl.
  - now rewrite app_nil_r.
  - unfold flush_section at 1, flush, is_document_section at 1. simpl in *.
    rewrite Hk. simpl.
    destruct content as [|c cs]; simpl.
    + rewrite andb_false_r. apply IH.
    + unfold addItemToSequence.
      destruct (startsWith key (str "#document")); simpl.
      * destruct (parseTqlDocumentFromString _) as [d|e]; simpl;
          [|reflexivity].
        rewrite IH.
        destruct (parse_sections _) as [its|e]; simpl; [|reflexivity].
        now rewrite <- app_assoc.
      * destruct (startsWith key (str "$diff")); apply IH.
Qed.

(** The sequence built from a body is the parse of its document sections
    that have a line after their header, in order. *)
Lemma scan_document_sections (body : list jsstring) :
  scan body = parse_sections (document_sections body).
Proof.
  unfold scan.
  change (st <- foldM Conversation.step body
                  (Conversation.mkState [] None []) ;;
          flush (items st) (currentItemKey st) (currentItemContent st))
    with (st <- foldM Conversation.step body
                  (Conversation.mkState [] None []) ;;
          finish st).
  rewrite scan_closed, flush_sections.
  - unfold document_sections. simpl. apply bind_OK.
  - eapply Forall_impl; [|apply sections_keys]. now intros s [H _].
Qed.

Lemma parse_sections_items (secs : list (jsstring * list jsstring)) :
  forall its : list SequenceItem,
    parse_sections secs = OK its ->
    map fst its = map fst secs
    /\ Forall (fun it => exists d, snd it = DocumentValue d) its.
Proof.
  induction secs as [|[key content] secs IH]; intros its H; simpl in H.
  - inversion H. split; [reflexivity|constructor].
  - destruct (parseTqlDocumentFromString _) as [d|e]; simpl in H;
      [|discriminate].
    destruct (parse_sections secs) as [its'|e]; simpl in H; [|discriminate].
    inversion H; subst. destruct (IH _ eq_refl) as [H1 H2].
    split; [simpl; now rewrite H1|].
    constructor; [now exists d|exact H2].
Qed.

Lemma document_key_count (lines : list jsstring) :
  forall (key : jsstring) (content : list jsstring),
    length (filter is_document_section (sections_from key content lines))
    <= (if startsWith key (str "#document") then 1 else 0)
       + length (document_headers lines).
Proof.
  induction lines as [|l ls IH]; intros key content; cbn [sections_from].
  - unfold is_document_section. simpl.
    destruct (startsWith key (str "#document")); simpl; [|lia].
    destruct (negb (is_empty content)); simpl; lia.
  - unfold header_key, document_headers. cbn [filter].
    destruct (match_document l) as [k|] eqn:E.
    + cbn [filter length]. specialize (IH k []).
      apply match_document_key in E as [E _]. rewrite E in IH.
      unfold is_document_section at 1. cbn [fst snd].
      fold (document_headers ls).
      destruct (startsWith key (str "#document"));
        destruct (negb (is_empty content)); simpl in *; lia.
    + fold (document_headers ls).
      destruct (match_diff l) as [k|] eqn:E'.
      * cbn [filter]. specialize (IH k []).
        apply match_diff_key in E' as [E' _]. rewrite E' in IH.
        unfold is_document_section at 1. cbn [fst snd].
        destruct (startsWith key (str "#document"));
          destruct (negb (is_empty content)); simpl in *; lia.
      * apply IH.
Qed.

(** No more document sections are found than the body has
    [#document[+n]:] lines. *)
Lemma document_sections_le_headers (body : list jsstring) :
  length (document_sections body) <= length (document_headers body).
Proof.
  unfold document_sections.
  induction body as [|l ls IH]; cbn [sections]; [simpl; lia|].
  unfold header_key, document_headers. cbn [filter].
  destruct (match_document l) as [k|] eqn:E.
  - cbn [length]. fold (document_headers ls).
    pose proof (document_key_count ls k []) as H.
    apply match_document_key in E as [E _]. rewrite E in H. lia.
  - fold (document_headers ls).
    destruct (match_diff l) as [k|] eqn:E'; [|exact IH].
    pose proof (document_key_count ls k []) as H.
    apply match_diff_key in E' as [E' _]. rewrite E' in H. simpl in H. lia.
Qed.

Lemma parse_sections_count (secs : list (jsstring * list jsstring)) :
  Forall (fun s => is_document_section s = true) secs ->
  forall its : list SequenceItem,
    parse_sections secs = OK its ->
    length (filter is_document_item its) = length secs.
Proof.
  induction 1 as [|[key content] secs Hk _ IH]; intros its H; simpl in H.
  - inversion H. reflexivity.
  - destruct (parseTqlDocumentFromString _) as [d|e]; simpl in H;
      [|discriminate].
    destruct (parse_sections secs) as [its'|e]; simpl in H; [|discriminate].
    inversion H; subst. unfold is_document_section in Hk. simpl in Hk.
    apply andb_prop in Hk as [Hk _].
    cbn [filter]. unfold is_document_item at 1. cbn [fst]. rewrite Hk.
    simpl. f_equal. now apply IH.
Qed.

Lemma parse_sections_total (secs : list (jsstring * list jsstring)) :
  (forall s, In s secs ->
     exists d, parseTqlDocumentFromString (join [c_lf] (snd s)) = OK d) ->
  exists its : list SequenceItem, parse_sections secs = OK its.
Proof.
  induction secs as [|[key content] secs IH]; intros H; simpl.
  - now exists [].
  - destruct (H (key, content) (or_introl eq_refl)) as [d Hd].
    simpl in Hd. rewrite Hd. simpl.
    destruct IH as [its Hits]; [intros s Hs; apply H; now right|].
    rewrite Hits. simpl. eexists. reflexivity.
Qed.

Lemma document_sections_all (body : list jsstring) :
  Forall (fun s => is_document_section s = true) (document_sections body).
Proof.
  unfold document_sections. apply Forall_forall. intros s Hs.
  now apply filter_In in Hs.
Qed.

(** In conversation mode the result is decided by the document sections. *)
Lemma conversation_mode (content first digits : jsstring)
  (body : list jsstring) :
  split c_lf content = first :: body ->
  match_conversation first = Some digits ->
  parseTqlConversationFromString content
  = (seq <- parse_sections (document_sections body) ;;
     if N.eqb (N.of_nat (length (document_sections body))) (parseInt digits)
     then OK (mkConversation seq)
     else Throw (FormatError (parseInt digits)
                   (length (document_sections body)))).
Proof.
  intros Hs Hm. unfold parseTqlConversationFromString.
  rewrite Hs, Hm. cbn [tl]. rewrite scan_document_sections.
  destruct (parse_sections (document_sections body)) as [its|e] eqn:E;
    cbn [bind]; [|reflexivity].
  now rewrite (parse_sections_count (document_sections_all body) E).
Qed.

(** Without the conversation header the whole text is one document. *)
Lemma legacy_mode (content first : jsstring) (body : list jsstring) :
  split c_lf content = first :: body ->
  match_conversation first = None ->
  parseTqlConversationFromString content
  = (doc <- parseTqlDocumentFromString content ;;
     OK (mkConversation [(str "#document[+0]", DocumentValue doc)])).
Proof.
  intros Hs Hm. unfold parseTqlConversationFromString. now rewrite Hs, Hm.
Qed.

(** C3, amended. When the first line declares [#conversation[N]:] and N
    differs from the number of document sections that have at least one
    line after their header, [parseConversation] fails, and it fails with the
    FormatError of N and that number when these sections parse; a text that
    declares two documents and has one [#document[+n]:] line fails. *)
Theorem conversation_count_mismatch (content first digits : jsstring)
  (body : list jsstring) :
  split c_lf content = first :: body ->
  match_conversation first = Some digits ->
  (parseInt digits <> N.of_nat (length (document_sections body)) ->
   (exists e, parseTqlConversationFromString content = Throw e)
   /\ ((forall s, In s (document_sections body) ->
          exists d, parseTqlDocumentFromString (join [c_lf] (snd s)) = OK d) ->
       parseTqlConversationFromString content
       = Throw (FormatError (parseInt digits)
                  (length (document_sections body)))))
  /\ (parseInt digits = 2%N -> length (document_headers body) = 1 ->
      exists e, parseTqlConversationFromString content = Throw e).
Proof.
  intros Hs Hm.
  assert (Hne : parseInt digits <> N.of_nat (length (document_sections body)) ->
                N.eqb (N.of_nat (length (document_sections body)))
                      (parseInt digits) = false).
  { intros H. apply N.eqb_neq. congruence. }
  rewrite (conversation_mode _ Hs Hm).
  split.
  - intros H. rewrite (Hne H). split.
    + destruct (parse_sections _); cbn [bind]; eexists; reflexivity.
    + intros Hp. destruct (parse_sections_total _ Hp) as [its ->].
      reflexivity.
  - intros H2 H1. pose proof (document_sections_le_headers body) as Hle.
    rewrite Hne by lia.
    destruct (parse_sections _); cbn [bind]; eexists; reflexivity.
Qed.

(** C3 on a text that declares two documents and holds one. *)
Lemma conversation_count_mismatch_witness :
  parseTqlConversationFromString one_of_two_text = Throw (FormatError 2 1).
Proof.
  assert (Hs : split c_lf one_of_two_text
               = str "#conversation[2]:"
                 :: [str ""; str "#document[+0]:"; str "@table[0]:";
                     str "| index |"; str "|-------|"]) by reflexivity.
  assert (Hm : match_conversation (str "#conversation[2]:") = Some (str "2"))
    by reflexivity.
  destruct (conversation_count_mismatch _ Hs Hm) as [H _].
  assert (Hn : parseInt (str "2")
               <> N.of_nat (length (document_sections
                    [str ""; str "#document[+0]:"; str "@table[0]:";
                     str "| index |"; str "|-------|"])))
    by (vm_compute; discriminate).
  destruct (H Hn) as [_ Hf].
  apply Hf. intros s Hin. vm_compute in Hin.
  destruct Hin as [<-|[]]. eexists. vm_compute. reflexivity.
Defined.

(** C3 as stated fails: a document header with no line after it opens no
    entry, so a text that declares no document and has one document header
    is accepted, and so is a text that declares one document and has two
    document headers. *)
Lemma empty_document_section_not_counted :
  parseTqlConversationFromString empty_section_text = OK (mkConversation [])
  /\ length (document_headers (tl (split c_lf empty_section_text))) = 1
  /\ parseTqlConversationFromString two_headers_text
     = OK (mkConversation [(str "#document[+1]", DocumentValue empty_doc)])
  /\ length (document_headers (tl (split c_lf two_headers_text))) = 2.
Proof. repeat split; vm_compute; reflexivity. Qed.

(** C6, amended. Every entry of the sequence [parseConversation] returns is
    a Document entry under a [#document] key; in conversation mode the
    sequence is the parse of the document sections alone, so a [$diff]
    section leaves no entry, neither a diff nor its text. *)
Theorem conversation_keeps_no_diff (content : jsstring)
  (conv : TqlConversation) :
  parseTqlConversationFromString content = OK conv ->
  Forall (fun item => startsWith (fst item) (str "#document") = true
                      /\ exists d, snd item = DocumentValue d)
         (sequence conv)
  /\ (forall first body digits,
        split c_lf content = first :: body ->
        match_conversation first = Some digits ->
        parse_sections (document_sections body) = OK (sequence conv)).
Proof.
  intros H. destruct (split_cons c_lf content) as [first [body Hs]].
  destruct (match_conversation first) as [digits|] eqn:Hm.
  - rewrite (conversation_mode _ Hs Hm) in H.
    destruct (parse_sections (document_sections body)) as [its|e] eqn:E;
      cbn [bind] in H; [|discriminate].
    destruct (N.eqb _ _); [|discriminate]. inversion H; subst conv.
    cbn [sequence]. split.
    + destruct (parse_sections_items _ E) as [Hk Hv].
      apply Forall_forall. intros [k v] Hin. cbn [fst snd]. split.
      * assert (Hkin : In k (map fst (document_sections body))).
        { rewrite <- Hk. now apply (in_map fst) in Hin. }
        apply in_map_iff in Hkin as [s [<- Hsin]].
        pose proof (document_sections_all body) as Hall.
        rewrite Forall_forall in Hall. specialize (Hall _ Hsin).
        unfold is_document_section in Hall.
        now apply andb_prop in Hall.
      * rewrite Forall_forall in Hv. exact (Hv _ Hin).
    + intros first' body' digits' Hs' _. rewrite Hs in Hs'.
      inversion Hs'; subst. exact E.
  - rewrite (legacy_mode _ Hs Hm) in H.
    destruct (parseTqlDocumentFromString content) as [d|e]; cbn [bind] in H;
      [|discriminate].
    inversion H; subst conv. cbn [sequence]. split.
    + constructor; [|constructor]. split; [reflexivity|now exists d].
    + intros first' body' digits' Hs' Hm'. rewrite Hs in Hs'.
      inversion Hs'; subst. congruence.
Qed.

(** C6 on a conversation of two documents with a diff section between
    them: the two entries returned are the documents. *)
Lemma conversation_keeps_no_diff_witness :
  Forall (fun item => startsWith (fst item) (str "#document") = true
                      /\ exists d, snd item = DocumentValue d)
    [(str "#document[+0]", DocumentValue empty_doc);
     (str "#document[+1]", DocumentValue empty_doc)].
Proof.
  assert (H : parseTqlConversationFromString diff_text
              = OK (mkConversation
                      [(str "#document[+0]", DocumentValue empty_doc);
                       (str "#document[+1]", DocumentValue empty_doc)]))
    by (vm_compute; reflexivity).
  exact (proj1 (conversation_keeps_no_diff _ H)).
Defined.

(** C6 as stated fails: the text holds the section [$diff[+0→+1]:] with
    two lines of text, and the parsed sequence has the two documents and no
    entry for the diff. *)
Lemma diff_section_dropped :
  In (str "$diff[+0" ++ c_arrow :: str "+1]:") (split c_lf diff_text)
  /\ parseTqlConversationFromString diff_text
     = OK (mkConversation
             [(str "#document[+0]", DocumentValue empty_doc);
              (str "#document[+1]", DocumentValue empty_doc)]).
Proof.
  split; [|vm_compute; reflexivity].
  vm_compute. do 7 right. left. reflexivity.
Qed.

(** C4 at a text without conversation header whose only section is named
    [__proto__]: legacy mode hands the text to [parseDocument], which
    throws. *)
Lemma legacy_mode_throws :
  match_conversation (hd [] (split c_lf proto_text)) = None
  /\ parseTqlConversationFromString proto_text = Throw TypeError.
Proof. split; vm_compute; reflexivity. Qed.

End ConversationFacts.

(** ** The facet registry *)

Section RegistryFacts.

Import Parser.

(** A name that is neither one of the nine facets nor a member of
    [Object.prototype] has no entry: its rows are dropped. *)
Lemma addRowToFacet_unregistered (d : TqlDocument) (facet : jsstring)
  (row : Row) :
  registry_lookup facet = Undefined -> addRowToFacet d facet row = OK d.
Proof. unfold addRowToFacet. now intros ->. Qed.

Lemma addRowToFacet_registered (d : TqlDocument) (k : FacetKind) (row : Row) :
  addRowToFacet d (facet_name k) row = OK (push_row k row d).
Proof. destruct k; reflexivity. Qed.

(** A facet that is not registered loses its rows, and a line that misses
    the header pattern opens no section. *)
Example unknown_facet_rows_ignored :
  parseTqlDocumentFromString
    (join [c_lf] [str "@notes[1]:"; str "| a |"; str "|---|"; str "| x |"])
  = OK empty_doc.
Proof. vm_compute. reflexivity. Qed.

Example near_miss_header_is_content :
  parseTqlDocumentFromString
    (join [c_lf] [str "@table 1:"; str "| a |"; str "|---|"; str "| x |"])
  = OK empty_doc.
Proof. vm_compute. reflexivity. Qed.

Example table_section_parsed :
  parseTqlDocumentFromString
    (join [c_lf] [str "  @table[1]:"; str "| id | name |"; str "|--|--|";
                  str "| 7 |"])
  = OK (set_rows Table [[(str "id", str "7"); (str "name", str "")]]
          empty_doc).
Proof. vm_compute. reflexivity. Qed.

(** C7 at a section named [__proto__]: the header is read as a facet
    header, the name is none of the nine facets, and the data row makes
    [addRowToFacet] call [Object.prototype], which throws. *)
Lemma prototype_facet_throws :
  parseFacetHeader (str "@__proto__[1]:") = Some (str "__proto__")
  /\ own_facet (str "__proto__") = None
  /\ parseTqlDocumentFromString proto_text = Throw TypeError.
Proof. repeat split; vm_compute; reflexivity. Qed.

(** C9 at a text whose second section is named [__proto__]: the parse of
    the text throws instead of returning a document. *)
Lemma parse_document_throws :
  parseTqlDocumentFromString table_then_proto_text = Throw TypeError.
Proof. vm_compute. reflexivity. Qed.

Lemma step_safe (st : Parser.State) (line : jsstring) :
  safe_state st ->
  (forall name, parseFacetHeader (trim line) = Some name ->
                safe_name name = true) ->
  exists st', Parser.step st line = OK st' /\ safe_state st'.
Proof.
  intros Hst Hline. unfold Parser.step.
  destruct (is_empty (trim line) && negb (is_empty (currentHeaders st))).
  { eexists. split; [reflexivity|exact Hst]. }
  destruct (parseFacetHeader (trim line)) as [name|].
  { eexists. split; [reflexivity|]. unfold safe_state. simpl. now apply Hline. }
  unfold safe_state in Hst.
  destruct (currentFacet st) as [facet|] eqn:Hf.
  2:{ exists st. split; [reflexivity|]. unfold safe_state. now rewrite Hf. }
  assert (Hsafe : forall d h i p,
             safe_state (Parser.mkState d (Some facet) h i p))
    by (intros; exact Hst).
  destruct (is_empty (trim line)).
  { exists st. split; [reflexivity|]. unfold safe_state. now rewrite Hf. }
  destruct (isSeparatorRow (trim line)).
  { eexists. split; [reflexivity|apply Hsafe]. }
  destruct (inDataSection st && isTableRow (trim line)
            && negb (headerParsed st) && is_empty (currentHeaders st)).
  { eexists. split; [reflexivity|apply Hsafe]. }
  destruct (inDataSection st && headerParsed st && isTableRow (trim line)).
  2:{ exists st. split; [reflexivity|]. unfold safe_state. now rewrite Hf. }
  unfold addRowToFacet. unfold safe_name in Hst.
  destruct (registry_lookup facet); try discriminate; cbn [bind];
    eexists; (split; [reflexivity|apply Hsafe]).
Qed.

(** Away from the members of [Object.prototype] the parser returns a
    document for every text. *)
Lemma parse_document_total_on_safe_names (content : jsstring) :
  (forall line name,
      In line (split c_lf content) ->
      parseFacetHeader (trim line) = Some name -> safe_name name = true) ->
  exists d : TqlDocument, parseTqlDocumentFromString content = OK d.
Proof.
  intros H. unfold parseTqlDocumentFromString, parse_lines.
  assert (Hgen : forall lines st,
             safe_state st ->
             (forall line name, In line lines ->
                parseFacetHeader (trim line) = Some name ->
                safe_name name = true) ->
             exists st', foldM Parser.step lines st = OK st').
  { induction lines as [|l ls IH]; intros st Hst Hl; cbn [foldM].
    - now exists st.
    - destruct (@step_safe st l Hst) as [st' [-> Hst']].
      + intros name. apply Hl. now left.
      + cbn [bind]. apply IH; [exact Hst'|].
        intros line name Hin. apply Hl. now right. }
  destruct (Hgen (split c_lf content) (init empty_doc) I H) as [st' ->].
  cbn [bind]. now exists (doc st').
Qed.

End RegistryFacts.

(** ** Trimming, splitting and joining *)

Section TextFacts.

Lemma trimStart_ws (ws s : jsstring) :
  forallb is_ws ws = true -> trimStart (ws ++ s) = trimStart s.
Proof.
  induction ws as [|c ws IH]; simpl; [reflexivity|].
  intros H. apply andb_prop in H as [Hc Hws]. rewrite Hc. now apply IH.
Qed.

Lemma trimStart_all_ws (ws : jsstring) :
  forallb is_ws ws = true -> trimStart ws = [].
Proof.
  intros H. rewrite <- (app_nil_r ws). now rewrite trimStart_ws.
Qed.

Lemma trimStart_length (s : jsstring) : length (trimStart s) <= length s.
Proof.
  induction s as [|c s IH]; simpl; [lia|].
  destruct (is_ws c); simpl; lia.
Qed.

Lemma trimStart_fixed (s : jsstring) :
  length (trimStart s) = length s -> trimStart s = s.
Proof.
  destruct s as [|c s]; simpl; [reflexivity|].
  destruct (is_ws c); [|reflexivity].
  pose proof (trimStart_length s). lia.
Qed.

Lemma trimStart_head (c : char) (s : jsstring) :
  is_ws c = false -> trimStart (c :: s) = c :: s.
Proof. simpl. now intros ->. Qed.

Lemma trimEnd_length (s : jsstring) : length (trimEnd s) <= length s.
Proof.
  unfold trimEnd. rewrite length_rev.
  pose proof (trimStart_length (rev s)) as H. now rewrite length_rev in H.
Qed.

Lemma trimEnd_ws (s ws : jsstring) :
  forallb is_ws ws = true -> trimEnd (s ++ ws) = trimEnd s.
Proof.
  intros H. unfold trimEnd. rewrite rev_app_distr, trimStart_ws; [reflexivity|].
  rewrite forallb_forall in *. intros c Hc. apply H. now apply in_rev.
Qed.

Lemma trimEnd_last (s : jsstring) (c : char) :
  is_ws c = false -> trimEnd (s ++ [c]) = s ++ [c].
Proof.
  intros H. unfold trimEnd. rewrite rev_app_distr. simpl. rewrite H.
  simpl. now rewrite rev_involutive.
Qed.

(** A string that [trim] leaves alone has no white space at either end. *)
Lemma trim_fixed (s : jsstring) :
  trim s = s -> trimStart s = s /\ trimEnd s = s.
Proof.
  unfold trim. intros H.
  assert (Hs : trimStart s = s).
  { apply trimStart_fixed.
    pose proof (trimEnd_length (trimStart s)) as H1.
    pose proof (trimStart_length s) as H2.
    rewrite H in H1. lia. }
  split; [exact Hs|]. now rewrite Hs in H.
Qed.

(** What is left of a padded cell: the cell, when it has no white space at
    its ends. *)
Lemma trim_padded (ws1 ws2 s : jsstring) :
  forallb is_ws ws1 = true -> forallb is_ws ws2 = true -> trim s = s ->
  trim (ws1 ++ s ++ ws2) = s.
Proof.
  intros H1 H2 Hs. apply trim_fixed in Hs as [Hstart Hend].
  unfold trim. rewrite trimStart_ws by exact H1.
  destruct s as [|c s].
  - simpl. rewrite trimStart_all_ws by exact H2. reflexivity.
  - assert (Hc : is_ws c = false).
    { simpl in Hstart. destruct (is_ws c); [|reflexivity].
      pose proof (trimStart_length s) as Hl. rewrite Hstart in Hl.
      simpl in Hl. lia. }
    change ((c :: s) ++ ws2) with (c :: (s ++ ws2)).
    rewrite trimStart_head by exact Hc.
    change (c :: (s ++ ws2)) with ((c :: s) ++ ws2).
    rewrite trimEnd_ws by exact H2. exact Hend.
Qed.

(** A line that starts and ends with a character that is no white space is
    its own trim. *)
Lemma trim_line (c l : char) (s : jsstring) :
  is_ws c = false -> is_ws l = false -> trim (c :: s ++ [l]) = c :: s ++ [l].
Proof.
  intros Hc Hl. unfold trim. rewrite trimStart_head by exact Hc.
  change (c :: s ++ [l]) with ((c :: s) ++ [l]). now apply trimEnd_last.
Qed.

Lemma split_aux_no_sep (c : char) (s : jsstring) :
  ~ In c s -> split_aux c s = (s, []).
Proof.
  induction s as [|x s IH]; simpl; [reflexivity|].
  intros H. rewrite IH by tauto.
  destruct (N.eqb x c) eqn:E; [|reflexivity].
  apply N.eqb_eq in E. subst. tauto.
Qed.

Lemma split_no_sep (c : char) (s : jsstring) : ~ In c s -> split c s = [s].
Proof. intros H. unfold split. now rewrite split_aux_no_sep. Qed.

Lemma split_cons_sep (c : char) (s : jsstring) :
  split c (c :: s) = [] :: split c s.
Proof.
  unfold split. simpl. rewrite N.eqb_refl. now destruct (split_aux c s).
Qed.

Lemma split_cons_other (c x : char) (s : jsstring) :
  x <> c ->
  split c (x :: s) = (x :: hd [] (split c s)) :: tl (split c s).
Proof.
  intros H. unfold split. simpl. apply N.eqb_neq in H. rewrite H.
  now destruct (split_aux c s).
Qed.

(** The pieces of two texts put together around a separator. *)
Lemma split_app_sep (c : char) (a b : jsstring) :
  split c (a ++ c :: b) = split c a ++ split c b.
Proof.
  induction a as [|x a IH]; simpl app.
  - now rewrite split_cons_sep.
  - destruct (N.eq_dec x c) as [->|Hx].
    + now rewrite !split_cons_sep, IH.
    + rewrite !split_cons_other by exact Hx. rewrite IH.
      destruct (split_cons c a) as [h [t ->]]. reflexivity.
Qed.

Lemma split_join_concat (c : char) (parts : list jsstring) :
  parts <> [] -> split c (join [c] parts) = concat (map (split c) parts).
Proof.
  induction parts as [|p ps IH]; [contradiction|]. intros _.
  destruct ps as [|q ps].
  - simpl. now rewrite app_nil_r.
  - rewrite join_cons.
    change (p ++ [c] ++ join [c] (q :: ps)) with (p ++ c :: join [c] (q :: ps)).
    rewrite split_app_sep, IH by discriminate. reflexivity.
Qed.

(** Splitting a joined list at a separator none of the parts holds gives
    the parts back. *)
Lemma split_join (c : char) (parts : list jsstring) :
  parts <> [] -> Forall (fun p => ~ In c p) parts ->
  split c (join [c] parts) = parts.
Proof.
  intros Hne H. rewrite split_join_concat by exact Hne.
  clear Hne. induction H as [|p ps Hp _ IH]; [reflexivity|].
  simpl. rewrite split_no_sep by exact Hp. simpl. now rewrite IH.
Qed.


Lemma join_app (sep : jsstring) (a b : list jsstring) :
  a <> [] -> b <> [] ->
  join sep (a ++ b) = join sep a ++ sep ++ join sep b.
Proof.
  induction a as [|p a IH]; [contradiction|].
  intros _ Hb. destruct a as [|q a].
  - simpl app. destruct b as [|r b]; [contradiction|]. now rewrite join_cons.
  - change ((p :: q :: a) ++ b) with (p :: (q :: a) ++ b).
    change ((q :: a) ++ b) with (q :: a ++ b) at 1.
    rewrite join_cons.
    change (q :: a ++ b) with ((q :: a) ++ b).
    rewrite IH by (discriminate || exact Hb).
    rewrite join_cons. now rewrite <- !app_assoc.
Qed.


End TextFacts.

(** ** The lines the generator writes, as the parser reads them *)

Section LineFacts.

Import Generator Parser Plain.

Lemma span_app (p : char -> bool) (a : jsstring) (c : char)
  (rest : jsstring) :
  forallb p a = true -> p c = false -> span p (a ++ c :: rest) = (a, c :: rest).
Proof.
  intros Ha Hc. induction a as [|x a IH]; simpl.
  - now rewrite Hc.
  - simpl in Ha. apply andb_prop in Ha as [Hx Ha]. rewrite Hx.
    now rewrite (IH Ha).
Qed.

Lemma plus_app (p : char -> bool) (a : jsstring) (c : char)
  (rest : jsstring) :
  a <> [] -> forallb p a = true -> p c = false ->
  plus p (a ++ c :: rest) = Some (a, c :: rest).
Proof.
  intros Hne Ha Hc. unfold plus. rewrite span_app by assumption.
  destruct a; [contradiction|reflexivity].
Qed.

Lemma digits_of_uint_digits (u : Decimal.uint) :
  forallb is_digit (digits_of_uint u) = true.
Proof. induction u; simpl; auto. Qed.

Lemma number_to_string_digits (n : nat) :
  forallb is_digit (number_to_string n) = true.
Proof. apply digits_of_uint_digits. Qed.

Lemma number_to_string_nonempty (n : nat) : number_to_string n <> [].
Proof.
  unfold number_to_string.
  pose proof (DecimalNat.Unsigned.to_of (Nat.to_uint n)) as H.
  rewrite DecimalNat.Unsigned.of_to in H.
  pose proof (DecimalFacts.unorm_nonnil (Nat.to_uint n)) as Hn.
  rewrite <- H in Hn.
  destruct (Nat.to_uint n); try discriminate; contradiction.
Qed.

Lemma facet_name_word (k : FacetKind) :
  forallb is_word (facet_name k) = true /\ facet_name k <> [].
Proof. destruct k; split; (reflexivity || discriminate). Qed.

Lemma parseFacetHeader_facet_line (k : FacetKind) (n : nat) :
  parseFacetHeader (facet_line (facet_name k) n) = Some (facet_name k).
Proof.
  destruct (facet_name_word k) as [Hw Hne].
  unfold parseFacetHeader, facet_line.
  change (str "@" ++ facet_name k ++ str "[" ++ number_to_string n ++ str "]:")
    with (c_at :: (facet_name k ++ c_lbracket
                     :: (number_to_string n ++ 93%N :: [58%N]))).
  change (strip_prefix (str "@") (c_at :: ?x)) with (Some x).
  cbv beta iota.
  rewrite plus_app by (assumption || reflexivity).
  change (strip_prefix (str "[") (c_lbracket :: ?x)) with (Some x).
  cbv beta iota.
  rewrite plus_app
    by (apply number_to_string_nonempty || apply number_to_string_digits
        || reflexivity).
  reflexivity.
Qed.

Lemma trim_facet_line (name : jsstring) (n : nat) :
  trim (facet_line name n) = facet_line name n.
Proof.
  unfold facet_line.
  change (str "@" ++ name ++ str "[" ++ number_to_string n ++ str "]:")
    with (c_at :: (name ++ c_lbracket
                     :: (number_to_string n ++ 93%N :: [58%N]))).
  replace (name ++ c_lbracket :: (number_to_string n ++ 93%N :: [58%N]))
    with ((name ++ c_lbracket :: number_to_string n ++ [93%N]) ++ [58%N]).
  - now apply trim_line.
  - rewrite <- app_assoc. simpl. now rewrite <- app_assoc.
Qed.

Lemma table_line_shape (cells : list jsstring) (widths : list nat) :
  table_line cells widths
  = c_pipe :: (c_space :: join (str " | ") (padded cells widths) ++ [c_space])
      ++ [c_pipe].
Proof.
  unfold table_line. fold (padded cells widths).
  change (str "| ") with [c_pipe; c_space].
  change (str " |") with [c_space; c_pipe].
  simpl. now rewrite <- app_assoc.
Qed.

Lemma separator_line_shape (widths : list nat) :
  separator_line widths
  = c_pipe :: join (str "|") (map (fun w => repeat c_dash (w + 2)) widths)
      ++ [c_pipe].
Proof. reflexivity. Qed.

Lemma trim_pipes (m : jsstring) :
  trim (c_pipe :: m ++ [c_pipe]) = c_pipe :: m ++ [c_pipe].
Proof. now apply trim_line. Qed.

Lemma parseFacetHeader_pipe (m : jsstring) :
  parseFacetHeader (c_pipe :: m) = None.
Proof. reflexivity. Qed.

Lemma isTableRow_pipe (m : jsstring) : isTableRow (c_pipe :: m) = true.
Proof. reflexivity. Qed.

Lemma forallb_rev {A : Type} (p : A -> bool) (l : list A) :
  forallb p (rev l) = forallb p l.
Proof.
  induction l as [|x l IH]; simpl; [reflexivity|].
  rewrite forallb_app, IH. simpl. rewrite andb_true_r. apply andb_comm.
Qed.

Lemma isSeparatorRow_pipes (m : jsstring) :
  isSeparatorRow (c_pipe :: m ++ [c_pipe])
  = negb (is_empty m) && forallb sep_class m.
Proof.
  unfold isSeparatorRow. rewrite N.eqb_refl, rev_app_distr. simpl.
  rewrite forallb_rev.
  destruct m; simpl; [reflexivity|].
  destruct (rev m ++ [c]) eqn:E; [|reflexivity].
  apply app_eq_nil in E as [_ E]. discriminate.
Qed.

Lemma forallb_join (p : char -> bool) (sep : jsstring)
  (parts : list jsstring) :
  forallb p sep = true ->
  forallb p (join sep parts) = forallb (forallb p) parts.
Proof.
  intros Hsep. induction parts as [|a parts IH]; [reflexivity|].
  destruct parts as [|b parts].
  - simpl. now rewrite andb_true_r.
  - rewrite join_cons, !forallb_app, Hsep, IH. reflexivity.
Qed.

Lemma forallb_padEnd (c : jsstring) (w : nat) :
  forallb sep_class (padEnd c w) = forallb sep_class c.
Proof.
  unfold padEnd. rewrite forallb_app.
  assert (H : forallb sep_class (repeat c_space (w - length c)) = true).
  { induction (w - length c); simpl; auto. }
  rewrite H. apply andb_true_r.
Qed.

Lemma forallb_padded (cells : list jsstring) (widths : list nat) :
  length cells = length widths ->
  forallb (forallb sep_class) (padded cells widths)
  = renders_as_separator cells.
Proof.
  unfold padded, renders_as_separator. revert widths.
  induction cells as [|c cells IH]; intros [|w widths] H; simpl in *;
    try discriminate; [reflexivity|].
  rewrite forallb_padEnd. f_equal. apply IH. lia.
Qed.

(** A table line is read as a separator row exactly when its cells hold
    dashes, white space and pipes only. *)
Lemma isSeparatorRow_table_line (cells : list jsstring) (widths : list nat) :
  length cells = length widths ->
  isSeparatorRow (table_line cells widths) = renders_as_separator cells.
Proof.
  intros H. rewrite table_line_shape, isSeparatorRow_pipes. simpl.
  rewrite forallb_app. simpl. rewrite andb_true_r.
  rewrite forallb_join by reflexivity. now apply forallb_padded.
Qed.

Lemma isSeparatorRow_separator_line (widths : list nat) :
  widths <> [] -> isSeparatorRow (separator_line widths) = true.
Proof.
  intros H. rewrite separator_line_shape, isSeparatorRow_pipes.
  rewrite forallb_join by reflexivity.
  apply andb_true_intro. split.
  - destruct widths as [|w ws]; [contradiction|].
    destruct ws; cbn [map]; [cbn [join]|rewrite join_cons];
      replace (w + 2) with (S (S w)) by lia; reflexivity.
  - clear H. induction widths as [|w ws IH]; simpl; [reflexivity|].
    rewrite IH, andb_true_r. induction (w + 2); simpl; auto.
Qed.

End LineFacts.

(** ** Cells and rows read back *)

Section RowFacts.

Import Generator Parser Plain.

Lemma clean_spec (v : jsstring) :
  clean v = true -> trim v = v /\ ~ In c_pipe v /\ ~ In c_lf v.
Proof.
  unfold clean. intros H.
  apply andb_prop in H as [H Hlf]. apply andb_prop in H as [Ht Hp].
  apply eqb_str_eq in Ht. split; [exact Ht|].
  split; intros Hin.
  - apply negb_true_iff in Hp.
    assert (existsb (N.eqb c_pipe) v = true)
      by (apply existsb_exists; exists c_pipe; split;
          [exact Hin|apply N.eqb_refl]).
    congruence.
  - apply negb_true_iff in Hlf.
    assert (existsb (N.eqb c_lf) v = true)
      by (apply existsb_exists; exists c_lf; split;
          [exact Hin|apply N.eqb_refl]).
    congruence.
Qed.

Lemma In_padEnd (c : char) (v : jsstring) (w : nat) :
  In c (padEnd v w) -> In c v \/ c = c_space.
Proof.
  unfold padEnd. intros H. apply in_app_or in H as [H|H]; [now left|].
  right. now apply repeat_spec in H.
Qed.

(** A table line with a space and a pipe between its cells is the join, by
    pipes, of the cells with a space on either side. *)
Lemma wrap_join (parts : list jsstring) :
  parts <> [] ->
  c_space :: join (str " | ") parts ++ [c_space]
  = join [c_pipe] (map (fun p => c_space :: p ++ [c_space]) parts).
Proof.
  induction parts as [|p ps IH]; [contradiction|]. intros _.
  destruct ps as [|q ps]; [reflexivity|].
  cbn [map]. rewrite !join_cons.
  change (map (fun p0 => c_space :: p0 ++ [c_space]) ps)
    with (tl (map (fun p0 => c_space :: p0 ++ [c_space]) (q :: ps))).
  change ((c_space :: q ++ [c_space])
          :: tl (map (fun p0 => c_space :: p0 ++ [c_space]) (q :: ps)))
    with (map (fun p0 => c_space :: p0 ++ [c_space]) (q :: ps)).
  rewrite <- IH by discriminate.
  change (str " | ") with [c_space; c_pipe; c_space].
  simpl. rewrite <- !app_assoc. reflexivity.
Qed.

Lemma padded_nonempty (cells : list jsstring) (widths : list nat) :
  cells <> [] -> length cells = length widths -> padded cells widths <> [].
Proof.
  destruct cells, widths; simpl; intros H1 H2; try discriminate.
  contradiction.
Qed.

Lemma trim_wrapped_padded (cells : list jsstring) :
  Forall (fun c => clean c = true) cells ->
  forall widths : list nat,
    length cells = length widths ->
    map trim (map (fun p => c_space :: p ++ [c_space]) (padded cells widths))
    = cells.
Proof.
  unfold padded.
  induction 1 as [|c cells Hc _ IH]; intros [|w widths] Hl; simpl in *;
    try discriminate; [reflexivity|].
  f_equal; [|apply IH; lia].
  apply clean_spec in Hc as [Ht _].
  unfold padEnd. rewrite <- app_assoc.
  change (c_space :: c ++ repeat c_space (w - length c) ++ [c_space])
    with ([c_space] ++ c ++ (repeat c_space (w - length c) ++ [c_space])).
  apply trim_padded; [reflexivity| |exact Ht].
  rewrite forallb_app. simpl. rewrite andb_true_r.
  induction (w - length c); simpl; auto.
Qed.

(** The cells written on a table line are the cells read from it. *)
Lemma parseTableRow_table_line (cells : list jsstring) (widths : list nat) :
  cells <> [] -> Forall (fun c => clean c = true) cells ->
  length cells = length widths ->
  parseTableRow (table_line cells widths) = cells.
Proof.
  intros Hne Hclean Hl. unfold parseTableRow.
  rewrite table_line_shape, trim_pipes. unfold slice_1_m1. cbn [tl].
  rewrite removelast_last.
  rewrite wrap_join by now apply padded_nonempty.
  rewrite split_join.
  - now apply trim_wrapped_padded.
  - intros E. apply map_eq_nil in E. revert E. now apply padded_nonempty.
  - apply Forall_forall. intros p Hp.
    apply in_map_iff in Hp as [q [<- Hq]].
    unfold padded in Hq. apply in_map_iff in Hq as [[c w] [<- Hcw]].
    apply in_combine_l in Hcw. rewrite Forall_forall in Hclean.
    apply Hclean, clean_spec in Hcw as [_ [Hpipe _]].
    simpl. intros [E|Hin]; [discriminate|].
    apply in_app_or in Hin as [Hin|[E|[]]]; [|discriminate].
    apply In_padEnd in Hin as [Hin|E]; [contradiction|discriminate].
Qed.

Lemma key_before_neq (k h : jsstring) :
  key_before k h = true -> eqb_str h k = false.
Proof.
  unfold key_before. intros H. apply eqb_str_neq. intros ->.
  destruct (array_index k) as [n|].
  - apply N.ltb_lt in H. lia.
  - rewrite eqb_str_refl in H. discriminate.
Qed.

Lemma js_ordered_app (a : list jsstring) (k : jsstring) (b : list jsstring) :
  js_ordered (a ++ k :: b) = true ->
  Forall (fun k' => key_before k' k = true) a.
Proof.
  induction a as [|x a IH]; simpl; intros H; [constructor|].
  apply andb_prop in H as [Hx Ha]. constructor; [|now apply IH].
  rewrite forallb_forall in Hx. apply Hx, in_elt.
Qed.

(** Assigning a key that may come after all the keys of an object adds it
    at the end. *)
Lemma set_append (h v : jsstring) (row : object) :
  Forall (fun k' => key_before k' h = true) (keys row) ->
  eqb_str h proto_key = false ->
  set h v row = row ++ [(h, v)].
Proof.
  intros Hb Hp.
  assert (Hown : get_own h row = None).
  { apply get_own_not_key. intros Hin. rewrite Forall_forall in Hb.
    apply Hb, key_before_neq in Hin. rewrite eqb_str_refl in Hin.
    discriminate. }
  unfold set, define_own. rewrite Hown, Hp.
  destruct (array_index h) as [n|] eqn:Eh; [|reflexivity].
  clear Hown. induction row as [|[k' v'] row IH]; [reflexivity|].
  simpl in Hb. inversion Hb as [|? ? Hk Hrow]; subst.
  simpl. unfold key_before in Hk. rewrite Eh in Hk.
  destruct (array_index k') as [m|]; [|discriminate].
  rewrite Hk. now rewrite (IH Hrow).
Qed.

Lemma build_row_append (hs : list jsstring) :
  forall (cells : list jsstring) (j : nat) (row : object),
    js_ordered (keys row ++ hs) = true ->
    existsb (eqb_str proto_key) hs = false ->
    build_row hs cells j row
    = row ++ combine hs (map (cell_at cells) (seq j (length hs))).
Proof.
  induction hs as [|h hs IH]; intros cells j row Ho Hp;
    cbn [build_row length seq map combine].
  - now rewrite app_nil_r.
  - cbn [existsb] in Hp. apply orb_false_iff in Hp as [Hh Hp].
    rewrite set_append.
    + rewrite IH; [now rewrite <- app_assoc| |exact Hp].
      unfold keys in *. rewrite map_app, <- app_assoc. exact Ho.
    + now apply js_ordered_app in Ho.
    + apply eqb_str_neq. apply eqb_str_neq in Hh. congruence.
Qed.

Lemma eqb_strs_eq (a b : list jsstring) : eqb_strs a b = true -> a = b.
Proof.
  revert b; induction a as [|x a IH]; intros [|y b]; simpl;
    try discriminate; [reflexivity|].
  intros H. apply andb_prop in H as [H1 H2].
  apply eqb_str_eq in H1. apply IH in H2. now subst.
Qed.

Lemma map_cell_at (cells : list jsstring) :
  map (cell_at cells) (seq 0 (length cells)) = cells.
Proof.
  unfold cell_at. apply nth_ext with (d := []) (d' := []).
  - now rewrite length_map, length_seq.
  - intros n Hn. rewrite length_map, length_seq in Hn.
    rewrite (nth_indep _ [] (nth 0 cells []))
      by now rewrite length_map, length_seq.
    rewrite (map_nth (fun j => nth j cells [])), seq_nth by exact Hn.
    reflexivity.
Qed.

(** The cells of a row that has exactly the columns of the section are its
    values. *)
Lemma cells_of_keys (row : Row) :
  js_ordered (keys row) = true -> cells_of (keys row) row = map snd row.
Proof.
  unfold cells_of.
  induction row as [|[k v] row IH]; simpl; intros H; [reflexivity|].
  apply andb_prop in H as [Hk Ho]. f_equal.
  - unfold read. simpl. now rewrite eqb_str_refl.
  - rewrite <- (IH Ho). apply map_ext_in. intros h Hh.
    rewrite forallb_forall in Hk. apply Hk, key_before_neq in Hh.
    unfold read. simpl. now rewrite Hh.
Qed.

Lemma combine_keys_values (row : Row) : combine (keys row) (map snd row) = row.
Proof.
  induction row as [|[k v] row IH]; simpl; [reflexivity|]. now rewrite IH.
Qed.

(** The row built from the cells of a line has the columns of the section
    in their order. *)
Lemma build_row_cells (headers : list jsstring) (row : Row) :
  plain_headers headers = true ->
  build_row headers (cells_of headers row) 0 [] = shown_row headers row.
Proof.
  unfold plain_headers. intros Hh.
  apply andb_prop in Hh as [Hh Hp]. apply andb_prop in Hh as [Hh Ho].
  apply negb_true_iff in Hp.
  rewrite build_row_append by assumption. simpl.
  replace (length headers) with (length (cells_of headers row))
    by (unfold cells_of; apply length_map).
  now rewrite map_cell_at.
Qed.

(** A row that has exactly the columns of the section is shown as it is. *)
Lemma shown_row_plain (headers : list jsstring) (row : Row) :
  plain_headers headers = true -> plain_row headers row = true ->
  shown_row headers row = row /\ readable_row headers row = true.
Proof.
  unfold plain_headers, plain_row, shown_row, readable_row. intros Hh Hr.
  apply andb_prop in Hh as [Hh _]. apply andb_prop in Hh as [_ Ho].
  apply andb_prop in Hr as [Hk Hv]. apply eqb_strs_eq in Hk. subst headers.
  rewrite cells_of_keys by exact Ho.
  split; [apply combine_keys_values|exact Hv].
Qed.

End RowFacts.

(** ** Parsing the text of a document *)

Section RoundTrip.

Import Generator Parser Plain.

Lemma foldM_app {A S : Type} (f : S -> A -> result S) (a b : list A) (s : S) :
  foldM f (a ++ b) s = (s' <- foldM f a s ;; foldM f b s').
Proof.
  revert s; induction a as [|x a IH]; intros s; simpl; [reflexivity|].
  destruct (f s x); simpl; [apply IH|reflexivity].
Qed.

Lemma plain_headers_spec (headers : list jsstring) :
  plain_headers headers = true ->
  headers <> [] /\ Forall (fun c => clean c = true) headers
  /\ renders_as_separator headers = false.
Proof.
  unfold plain_headers. intros H.
  apply andb_prop in H as [H _]. apply andb_prop in H as [H _].
  apply andb_prop in H as [Hc Hs]. apply negb_true_iff in Hs.
  split; [intros ->; discriminate|].
  split; [|exact Hs].
  apply Forall_forall. now apply forallb_forall.
Qed.

Lemma readable_row_spec (headers : list jsstring) (row : Row) :
  readable_row headers row = true ->
  length (cells_of headers row) = length headers
  /\ Forall (fun c => clean c = true) (cells_of headers row).
Proof.
  intros Hr. split; [unfold cells_of; apply length_map|].
  apply Forall_forall. now apply forallb_forall.
Qed.

Lemma step_facet_line (st : Parser.State) (k : FacetKind) (n : nat) :
  Parser.step st (facet_line (facet_name k) n)
  = OK (Parser.mkState (doc st) (Some (facet_name k)) [] true false).
Proof.
  unfold Parser.step. rewrite trim_facet_line, parseFacetHeader_facet_line.
  reflexivity.
Qed.

Lemma step_header_line (d : TqlDocument) (f : jsstring)
  (headers : list jsstring) (widths : list nat) :
  plain_headers headers = true -> length headers = length widths ->
  Parser.step (Parser.mkState d (Some f) [] true false)
    (table_line headers widths)
  = OK (Parser.mkState d (Some f) headers true false).
Proof.
  intros Hh Hl. destruct (@plain_headers_spec _ Hh) as [Hne [Hc Hs]].
  pose proof (@isSeparatorRow_table_line headers widths Hl) as Hsep.
  pose proof (@parseTableRow_table_line _ _ Hne Hc Hl) as Hrow.
  rewrite Hs in Hsep. revert Hsep Hrow.
  rewrite table_line_shape. intros Hsep Hrow.
  unfold Parser.step. rewrite trim_pipes.
  cbn [is_empty andb currentHeaders currentFacet inDataSection headerParsed
       doc negb].
  rewrite parseFacetHeader_pipe, Hsep, isTableRow_pipe, Hrow. reflexivity.
Qed.

Lemma step_separator_line (d : TqlDocument) (f : jsstring)
  (headers : list jsstring) (widths : list nat) :
  widths <> [] ->
  Parser.step (Parser.mkState d (Some f) headers true false)
    (separator_line widths)
  = OK (Parser.mkState d (Some f) headers true true).
Proof.
  intros Hne. pose proof (@isSeparatorRow_separator_line _ Hne) as Hsep.
  revert Hsep. rewrite separator_line_shape. intros Hsep.
  unfold Parser.step. rewrite trim_pipes.
  cbn [is_empty andb currentHeaders currentFacet inDataSection headerParsed
       doc negb].
  rewrite parseFacetHeader_pipe, Hsep. reflexivity.
Qed.

Lemma step_data_line (d : TqlDocument) (k : FacetKind)
  (headers : list jsstring) (widths : list nat) (row : Row) :
  plain_headers headers = true -> readable_row headers row = true ->
  length headers = length widths ->
  Parser.step (Parser.mkState d (Some (facet_name k)) headers true true)
    (data_line headers widths row)
  = OK (Parser.mkState
          (if is_data_row headers row
           then push_row k (shown_row headers row) d else d)
          (Some (facet_name k)) headers true true).
Proof.
  intros Hh Hr Hl. destruct (@plain_headers_spec _ Hh) as [Hne _].
  destruct (@readable_row_spec _ _ Hr) as [Hlen Hc].
  assert (Hcne : cells_of headers row <> []).
  { intros E. rewrite E in Hlen. destruct headers; [contradiction|].
    discriminate. }
  assert (Hl' : length (cells_of headers row) = length widths) by congruence.
  pose proof (@isSeparatorRow_table_line _ _ Hl') as Hsep.
  pose proof (@parseTableRow_table_line _ _ Hcne Hc Hl') as Hrow.
  pose proof (@build_row_cells _ row Hh) as Hbuild.
  unfold data_line, is_data_row. revert Hsep Hrow.
  rewrite table_line_shape. intros Hsep Hrow.
  unfold Parser.step. rewrite trim_pipes.
  cbn [is_empty andb currentHeaders currentFacet inDataSection headerParsed
       doc negb].
  rewrite parseFacetHeader_pipe, Hsep.
  destruct (renders_as_separator (cells_of headers row)); [reflexivity|].
  destruct headers as [|h hs]; [contradiction|].
  cbn [is_empty andb negb]. rewrite isTableRow_pipe, Hrow, Hbuild.
  now rewrite addRowToFacet_registered.
Qed.

Lemma step_blank_line (d : TqlDocument) (f : option jsstring)
  (headers : list jsstring) (i p : bool) :
  headers <> [] ->
  Parser.step (Parser.mkState d f headers i p) []
  = OK (Parser.mkState d f [] false false).
Proof. destruct headers; [contradiction|reflexivity]. Qed.

Lemma set_rows_twice (k : FacetKind) (a b : list Row) (d : TqlDocument) :
  set_rows k a (set_rows k b d) = set_rows k a d.
Proof. destruct k; reflexivity. Qed.

(** The data lines of a section add the rows that are not read as
    separator rows to the facet. *)
Lemma parse_data_lines (k : FacetKind) (headers : list jsstring)
  (widths : list nat) (rows : list Row) :
  plain_headers headers = true ->
  forallb (readable_row headers) rows = true ->
  length headers = length widths ->
  forall d : TqlDocument,
    parse_lines (map (data_line headers widths) rows)
      (Parser.mkState d (Some (facet_name k)) headers true true)
    = OK (Parser.mkState
            (set_rows k
               (rows_of k d
                ++ map (shown_row headers)
                     (filter (is_data_row headers) rows)) d)
            (Some (facet_name k)) headers true true).
Proof.
  intros Hh Hrows Hl. unfold parse_lines.
  induction rows as [|row rows IH]; intros d.
  - simpl. now rewrite app_nil_r, set_rows_rows_of.
  - cbn [forallb] in Hrows. apply andb_prop in Hrows as [Hr Hrows].
    cbn [map foldM filter]. rewrite step_data_line by assumption.
    cbn [bind]. rewrite (IH Hrows).
    destruct (is_data_row headers row); [|reflexivity].
    unfold push_row. rewrite rows_of_set_rows_same, set_rows_twice.
    cbn [map]. now rewrite <- app_assoc.
Qed.

Lemma colWidths_length (headers : list jsstring) (rows : list Row) :
  length headers = length (colWidths headers rows).
Proof. unfold colWidths. now rewrite length_map. Qed.

(** The lines of a section set the rows of its facet. *)
Lemma parse_section_lines (k : FacetKind) (d : TqlDocument)
  (st : Parser.State) :
  readable_facet k d = true ->
  parse_lines (section_lines k d) st
  = OK (Parser.mkState
          (set_rows k (rows_of k (doc st) ++ shown_rows k d) (doc st))
          (Some (facet_name k)) (facet_headers k d) true true).
Proof.
  unfold readable_facet. intros H. apply andb_prop in H as [Hh Hrows].
  destruct (@plain_headers_spec _ Hh) as [Hne _].
  pose proof (colWidths_length (facet_headers k d) (rows_of k d)) as Hl.
  unfold section_lines, table_lines, parse_lines. cbn [foldM].
  rewrite step_facet_line. cbn [bind].
  rewrite step_header_line by assumption. cbn [bind].
  rewrite step_separator_line.
  2:{ intros E. rewrite E in Hl. destruct (facet_headers k d);
        [contradiction|discriminate]. }
  cbn [bind]. fold (parse_lines
    (map (data_line (facet_headers k d)
            (colWidths (facet_headers k d) (rows_of k d))) (rows_of k d))
    (Parser.mkState (doc st) (Some (facet_name k)) (facet_headers k d)
       true true)).
  now rewrite parse_data_lines.
Qed.

Lemma parse_document_lines (d : TqlDocument) (ks : list FacetKind) :
  forallb (fun k => readable_facet k d) ks = true ->
  forall st : Parser.State,
    exists st' : Parser.State,
      parse_lines (document_lines ks d) st = OK st'
      /\ doc st' = collect ks d (doc st).
Proof.
  induction ks as [|k ks IH]; intros H st.
  - exists st. split; reflexivity.
  - cbn [forallb] in H. apply andb_prop in H as [Hk Hks].
    destruct ks as [|k' ks].
    + cbn [document_lines]. rewrite parse_section_lines by exact Hk.
      eexists. split; reflexivity.
    + change (document_lines (k :: k' :: ks) d)
        with (section_lines k d ++ [] :: document_lines (k' :: ks) d).
      unfold parse_lines. rewrite foldM_app.
      fold (parse_lines (section_lines k d) st).
      rewrite parse_section_lines by exact Hk. cbn [bind foldM].
      rewrite step_blank_line.
      2:{ unfold readable_facet in Hk. apply andb_prop in Hk as [Hk _].
          now apply plain_headers_spec in Hk. }
      cbn [bind].
      destruct (IH Hks (Parser.mkState
                  (set_rows k (rows_of k (doc st) ++ shown_rows k d) (doc st))
                  (Some (facet_name k)) [] false false)) as [st' [Hp Hd]].
      exists st'. split; [exact Hp|exact Hd].
Qed.

Lemma generateSection_lines (k : FacetKind) (d : TqlDocument) :
  generateSection k d = join [c_lf] (section_lines k d).
Proof. reflexivity. Qed.

Lemma section_lines_nonempty (k : FacetKind) (d : TqlDocument) :
  section_lines k d <> [].
Proof. discriminate. Qed.

Lemma document_lines_nonempty (k : FacetKind) (ks : list FacetKind)
  (d : TqlDocument) :
  document_lines (k :: ks) d <> [].
Proof. destruct ks; discriminate. Qed.

Lemma join_sections (d : TqlDocument) (ks : list FacetKind) :
  join [c_lf; c_lf] (map (fun k => generateSection k d) ks)
  = join [c_lf] (document_lines ks d).
Proof.
  induction ks as [|k ks IH]; [reflexivity|].
  destruct ks as [|k' ks]; [reflexivity|].
  change (document_lines (k :: k' :: ks) d)
    with (section_lines k d ++ [] :: document_lines (k' :: ks) d).
  rewrite join_app by (discriminate || apply section_lines_nonempty).
  cbn [map] in *. rewrite join_cons, IH.
  destruct (document_lines (k' :: ks) d) as [|l ls] eqn:E.
  - now apply document_lines_nonempty in E.
  - rewrite (join_cons [c_lf] []). reflexivity.
Qed.

(** The text of a document is its lines, joined by line feeds. *)
Lemma generate_lines (d : TqlDocument) :
  generateTqlFromJson d = join [c_lf] (document_lines all_facets d).
Proof. rewrite <- join_sections. reflexivity. Qed.

Lemma In_join (c : char) (sep : jsstring) (parts : list jsstring) :
  In c (join sep parts) ->
  In c sep \/ exists p, In p parts /\ In c p.
Proof.
  induction parts as [|p ps IH]; [contradiction|].
  destruct ps as [|q ps].
  - intros H. right. exists p. split; [now left|exact H].
  - rewrite join_cons. intros H.
    apply in_app_or in H as [H|H];
      [right; exists p; split; [now left|exact H]|].
    apply in_app_or in H as [H|H]; [now left|].
    destruct (IH H) as [Hs|[p' [Hp' Hc]]]; [now left|].
    right. exists p'. split; [now right|exact Hc].
Qed.

Lemma In_table_line (c : char) (cells : list jsstring) (widths : list nat) :
  In c (table_line cells widths) ->
  c = c_pipe \/ c = c_space \/ exists cell, In cell cells /\ In c cell.
Proof.
  rewrite table_line_shape. intros H.
  destruct H as [E|H]; [now left|].
  apply in_app_or in H as [H|[E|[]]]; [|now left].
  destruct H as [E|H]; [now (right; left)|].
  apply in_app_or in H as [H|[E|[]]]; [|now (right; left)].
  apply In_join in H as [H|[p [Hp Hc]]].
  - destruct H as [E|[E|[E|[]]]]; auto.
  - unfold padded in Hp. apply in_map_iff in Hp as [[cell w] [<- Hcw]].
    apply in_combine_l in Hcw. apply In_padEnd in Hc as [Hc|E]; [|auto].
    right. right. now exists cell.
Qed.

Lemma In_separator_line (c : char) (widths : list nat) :
  In c (separator_line widths) -> c = c_pipe \/ c = c_dash.
Proof.
  rewrite separator_line_shape. intros H.
  destruct H as [E|H]; [now left|].
  apply in_app_or in H as [H|[E|[]]]; [|now left].
  apply In_join in H as [[E|[]]|[p [Hp Hc]]]; [now left|].
  apply in_map_iff in Hp as [w [<- _]]. apply repeat_spec in Hc. now right.
Qed.

Lemma facet_line_no_lf (k : FacetKind) (n : nat) :
  ~ In c_lf (facet_line (facet_name k) n).
Proof.
  unfold facet_line. intros H.
  apply in_app_or in H as [H|H]; [destruct H as [E|[]]; discriminate|].
  apply in_app_or in H as [H|H].
  { destruct k; simpl in H; repeat (destruct H as [E|H]; [discriminate|]);
      exact H. }
  apply in_app_or in H as [H|H]; [destruct H as [E|[]]; discriminate|].
  apply in_app_or in H as [H|H].
  - pose proof (number_to_string_digits n) as Hd.
    rewrite forallb_forall in Hd. apply Hd in H. discriminate.
  - destruct H as [E|[E|[]]]; discriminate.
Qed.

Lemma table_line_no_lf (cells : list jsstring) (widths : list nat) :
  Forall (fun c => clean c = true) cells ->
  ~ In c_lf (table_line cells widths).
Proof.
  intros Hc H. apply In_table_line in H as [E|[E|[cell [Hin Hlf]]]];
    try discriminate.
  rewrite Forall_forall in Hc. apply Hc, clean_spec in Hin as [_ [_ Hn]].
  contradiction.
Qed.

Lemma section_lines_no_lf (k : FacetKind) (d : TqlDocument) :
  readable_facet k d = true ->
  Forall (fun l => ~ In c_lf l) (section_lines k d).
Proof.
  unfold readable_facet. intros H. apply andb_prop in H as [Hh Hrows].
  unfold section_lines, table_lines.
  constructor; [apply facet_line_no_lf|].
  constructor; [apply table_line_no_lf; now apply plain_headers_spec in Hh|].
  constructor.
  { intros H. apply In_separator_line in H as [E|E]; discriminate. }
  apply Forall_forall. intros l Hl. apply in_map_iff in Hl as [row [<- Hrow]].
  rewrite forallb_forall in Hrows. apply Hrows in Hrow.
  apply table_line_no_lf. now apply (@readable_row_spec _ _ Hrow).
Qed.

Lemma document_lines_no_lf (d : TqlDocument) (ks : list FacetKind) :
  forallb (fun k => readable_facet k d) ks = true ->
  Forall (fun l => ~ In c_lf l) (document_lines ks d).
Proof.
  induction ks as [|k ks IH]; intros H; [constructor|].
  cbn [forallb] in H. apply andb_prop in H as [Hk Hks].
  destruct ks as [|k' ks]; [now apply section_lines_no_lf|].
  change (document_lines (k :: k' :: ks) d)
    with (section_lines k d ++ [] :: document_lines (k' :: ks) d).
  apply Forall_app. split; [now apply section_lines_no_lf|].
  constructor; [intros []|now apply IH].
Qed.

Lemma collect_all (d : TqlDocument) : collect all_facets d empty_doc = shown d.
Proof. reflexivity. Qed.

(** The parse of the text of a document whose cells and column names the
    format can hold is the document as the text shows it: without the rows
    written as separator rows, and with every row completed to the columns
    of its section. *)
Lemma parse_generate (d : TqlDocument) :
  readable_doc d = true ->
  parseTqlDocumentFromString (generateTqlFromJson d) = OK (shown d).
Proof.
  intros H. unfold parseTqlDocumentFromString.
  rewrite generate_lines, split_join.
  - destruct (@parse_document_lines d all_facets H (init empty_doc))
      as [st' [-> Hd]].
    cbn [bind]. rewrite Hd. reflexivity.
  - apply document_lines_nonempty.
  - now apply document_lines_no_lf.
Qed.

Lemma filter_all {A : Type} (p : A -> bool) (l : list A) :
  forallb p l = true -> filter p l = l.
Proof.
  induction l as [|x l IH]; simpl; [reflexivity|].
  intros H. apply andb_prop in H as [Hx Hl]. now rewrite Hx, IH.
Qed.

Lemma plain_facet_readable (k : FacetKind) (d : TqlDocument) :
  plain_facet k d = true ->
  readable_facet k d = true
  /\ map (shown_row (facet_headers k d)) (rows_of k d) = rows_of k d.
Proof.
  unfold plain_facet, readable_facet. intros H.
  apply andb_prop in H as [Hh Hrows]. rewrite Hh. cbn [andb].
  induction (rows_of k d) as [|row rows IH]; [split; reflexivity|].
  cbn [forallb] in Hrows. apply andb_prop in Hrows as [Hr Hrows].
  destruct (IH Hrows) as [IH1 IH2].
  destruct (@shown_row_plain _ _ Hh Hr) as [H1 H2].
  cbn [forallb map]. now rewrite H1, H2, IH1, IH2.
Qed.

Lemma plain_doc_readable (d : TqlDocument) :
  plain_doc d = true -> readable_doc d = true.
Proof.
  unfold plain_doc, readable_doc. intros H.
  rewrite forallb_forall in *. intros k Hk.
  now apply plain_facet_readable, H.
Qed.

Lemma shown_plain (d : TqlDocument) :
  plain_doc d = true -> no_separator_rows d = true -> shown d = d.
Proof.
  unfold plain_doc, no_separator_rows. intros Hp Hs.
  rewrite forallb_forall in Hp, Hs.
  assert (H : forall k, shown_rows k d = rows_of k d).
  { intros k. unfold shown_rows.
    rewrite filter_all by (apply Hs; destruct k; simpl; tauto).
    apply plain_facet_readable, Hp. destruct k; simpl; tauto. }
  unfold shown. rewrite !H. now destruct d.
Qed.

(** C1, amended. When every row of a document has exactly the columns of its
    section (the [index] column among them; for the table facet the keys of
    its first row), when the column names and the values have no white space
    at their ends, no pipe and no line feed, and when no row and no column
    header row is made of dashes and white space only, then
    [parseDocument(generateDocument(d))] returns [d], row for row and column
    for column. *)
Theorem round_trip (d : TqlDocument) :
  plain_doc d = true -> no_separator_rows d = true ->
  parseTqlDocumentFromString (generateTqlFromJson d) = OK d.
Proof.
  intros Hp Hs. rewrite parse_generate by now apply plain_doc_readable.
  now rewrite shown_plain.
Qed.

(** C1 on a document with a table row, a meaning row and a context row. *)
Lemma round_trip_witness :
  parseTqlDocumentFromString (generateTqlFromJson indexed_doc)
  = OK indexed_doc.
Proof. apply round_trip; vm_compute; reflexivity. Defined.

(** C1 as stated fails: inserting the context row
    [{key: "a|b", value: "c"}] into the document of the scenario gives a
    document whose text is parsed to the context row
    [{index: "", key: "a", value: "b"}]. *)
Lemma round_trip_loses_pipe :
  context (Crud.insertRowInMemory scenario_doc Context
             [(str "key", str "a|b"); (str "value", str "c")])
  = [[(str "key", str "a|b"); (str "value", str "c")]]
  /\ exists d' : TqlDocument,
       parseTqlDocumentFromString
         (generateTqlFromJson
            (Crud.insertRowInMemory scenario_doc Context
               [(str "key", str "a|b"); (str "value", str "c")]))
       = OK d'
       /\ context d'
          = [[(str "index", str ""); (str "key", str "a");
              (str "value", str "b")]].
Proof.
  split; [reflexivity|]. eexists. split; [vm_compute; reflexivity|reflexivity].
Qed.

(** The row of the scenario of section 8, which has no [index] field, comes
    back with an empty [index] column. *)
Example round_trip_adds_index :
  exists d' : TqlDocument,
    parseTqlDocumentFromString
      (generateTqlFromJson
         (Crud.insertRowInMemory scenario_doc Meaning
            [(str "column", str "id");
             (str "definition", str "Unique identifier")]))
    = OK d'
    /\ meaning d'
       = [[(str "index", str ""); (str "column", str "id");
           (str "definition", str "Unique identifier")]].
Proof. eexists. split; [vm_compute; reflexivity|reflexivity]. Qed.

(** White space at the ends of a value is not written padding, and is
    stripped all the same. *)
Example round_trip_strips_value :
  exists d' : TqlDocument,
    parseTqlDocumentFromString
      (generateTqlFromJson
         (Crud.insertRowInMemory scenario_doc Context
            [(str "index", str "1"); (str "key", str " tz");
             (str "value", str "MST ")]))
    = OK d'
    /\ context d'
       = [[(str "index", str "1"); (str "key", str "tz");
           (str "value", str "MST")]].
Proof. eexists. split; [vm_compute; reflexivity|reflexivity]. Qed.





End RoundTrip.

(** ** What the parser stores *)

Unset Implicit Arguments.

Section StoredFacts.

Import Parser Inert.

Lemma trimStart_cases (s : jsstring) :
  trimStart s = []
  \/ exists c r, trimStart s = c :: r /\ is_ws c = false.
Proof.
  induction s as [|c s IH]; simpl; [now left|].
  destruct (is_ws c) eqn:E; [exact IH|]. right. now exists c, s.
Qed.

Lemma trimStart_idem (s : jsstring) : trimStart (trimStart s) = trimStart s.
Proof.
  destruct (trimStart_cases s) as [->|[c [r [-> Hc]]]]; [reflexivity|].
  now apply trimStart_head.
Qed.

Lemma trimStart_snoc (a : jsstring) (c : char) :
  is_ws c = false -> trimStart (a ++ [c]) = trimStart a ++ [c].
Proof.
  intros Hc. induction a as [|x a IH]; simpl; [now rewrite Hc|].
  destruct (is_ws x); [exact IH|reflexivity].
Qed.

Lemma trimEnd_head (c : char) (r : jsstring) :
  is_ws c = false -> exists r', trimEnd (c :: r) = c :: r'.
Proof.
  intros Hc. unfold trimEnd. simpl rev. rewrite trimStart_snoc by exact Hc.
  rewrite rev_app_distr. simpl. eexists. reflexivity.
Qed.

Lemma trimEnd_idem (s : jsstring) : trimEnd (trimEnd s) = trimEnd s.
Proof. unfold trimEnd. now rewrite rev_involutive, trimStart_idem. Qed.

(** Trimming twice is trimming once. *)
Lemma trim_idem (s : jsstring) : trim (trim s) = trim s.
Proof.
  unfold trim.
  destruct (trimStart_cases s) as [E|[c [r [E Hc]]]]; rewrite E;
    [reflexivity|].
  destruct (@trimEnd_head c r Hc) as [r' Hr'].
  rewrite Hr', trimStart_head by exact Hc.
  rewrite <- Hr'. apply trimEnd_idem.
Qed.

Lemma In_trimStart (c : char) (s : jsstring) : In c (trimStart s) -> In c s.
Proof.
  induction s as [|x s IH]; simpl; [tauto|].
  destruct (is_ws x); [intros H; right; now apply IH|tauto].
Qed.

Lemma In_trim (c : char) (s : jsstring) : In c (trim s) -> In c s.
Proof.
  unfold trim, trimEnd. intros H.
  apply in_rev, In_trimStart in H. apply in_rev in H.
  now apply In_trimStart.
Qed.

Lemma split_aux_pieces (c : char) (s : jsstring) :
  ~ In c (fst (split_aux c s))
  /\ Forall (fun p => ~ In c p) (snd (split_aux c s)).
Proof.
  induction s as [|x s [IH1 IH2]]; simpl; [split; [tauto|constructor]|].
  destruct (split_aux c s) as [p ps]. simpl in *.
  destruct (N.eqb x c) eqn:E; simpl.
  - split; [tauto|]. now constructor.
  - apply N.eqb_neq in E. split; [|exact IH2].
    intros [H|H]; [congruence|contradiction].
Qed.

(** No piece of a split holds the separator. *)
Lemma split_pieces (c : char) (s : jsstring) :
  Forall (fun p => ~ In c p) (split c s).
Proof.
  unfold split. pose proof (split_aux_pieces c s) as [H1 H2].
  destruct (split_aux c s). now constructor.
Qed.

Lemma parseTableRow_stored (line : jsstring) :
  Forall stored (parseTableRow line).
Proof.
  unfold parseTableRow. apply Forall_forall. intros v Hv.
  apply in_map_iff in Hv as [p [<- Hp]].
  pose proof (split_pieces c_pipe (slice_1_m1 (trim line))) as H.
  rewrite Forall_forall in H. split; [apply trim_idem|].
  intros Hin. apply In_trim in Hin. exact (H _ Hp Hin).
Qed.

Lemma In_replace_own (kv : jsstring * jsstring) (k v : jsstring)
  (o : object) :
  In kv (replace_own k v o) -> kv = (k, v) \/ In kv o.
Proof.
  induction o as [|[k' v'] o IH]; simpl; [tauto|].
  destruct (eqb_str k k') eqn:E; simpl.
  - apply eqb_str_eq in E. subst k'.
    intros [H|H]; [left; now symmetry|right; now right].
  - intros [H|H]; [right; now left|]. destruct (IH H); [now left|].
    right. now right.
Qed.

Lemma In_insert_index (kv : jsstring * jsstring) (n : N) (k v : jsstring)
  (o : object) :
  In kv (insert_index n k v o) -> kv = (k, v) \/ In kv o.
Proof.
  induction o as [|[k' v'] o IH]; simpl.
  - intros [H|[]]. left. now symmetry.
  - destruct (array_index k') as [m|]; [destruct (m <? n)%N|]; simpl.
    + intros [H|H]; [right; now left|]. destruct (IH H); [now left|].
      right. now right.
    + intros [H|H]; [left; now symmetry|now right].
    + intros [H|H]; [left; now symmetry|now right].
Qed.

(** An assignment adds or overwrites one property and touches no other. *)
Lemma In_set (kv : jsstring * jsstring) (k v : jsstring) (o : object) :
  In kv (set k v o) -> kv = (k, v) \/ In kv o.
Proof.
  unfold set, define_own.
  destruct (get_own k o).
  - apply In_replace_own.
  - destruct (eqb_str k proto_key); [tauto|].
    destruct (array_index k).
    + apply In_insert_index.
    + intros H. apply in_app_or in H as [H|[H|[]]]; [now right|].
      left. now symmetry.
Qed.

Lemma In_build_row (kv : jsstring * jsstring) (hs : list jsstring) :
  forall (cells : list jsstring) (j : nat) (row : Row),
    In kv (build_row hs cells j row) ->
    In kv row
    \/ (In (fst kv) hs /\ (snd kv = [] \/ In (snd kv) cells)).
Proof.
  induction hs as [|h hs IH]; intros cells j row H; cbn [build_row] in H;
    [now left|].
  apply IH in H as [H|[H1 H2]].
  - apply In_set in H as [->|H]; [|now left].
    right. split; [now left|]. unfold cell_at.
    destruct (nth_in_or_default j cells []) as [Hn| ->]; auto.
  - right. split; [now right|exact H2].
Qed.

Lemma stored_rows_push (k : FacetKind) (row : Row) (d : TqlDocument) :
  stored_rows d ->
  (forall name value, In (name, value) row -> stored name /\ stored value) ->
  stored_rows (push_row k row d).
Proof.
  intros Hd Hrow k' row' name value Hin Hkv. unfold push_row in Hin.
  assert (Hk : k' = k \/ k' <> k)
    by (destruct k, k'; (now left) || (right; discriminate)).
  destruct Hk as [->|Hk].
  - rewrite rows_of_set_rows_same in Hin.
    apply in_app_or in Hin as [Hin|[<-|[]]]; [|now apply Hrow].
    exact (Hd _ _ _ _ Hin Hkv).
  - rewrite rows_of_set_rows_other in Hin by exact Hk.
    exact (Hd _ _ _ _ Hin Hkv).
Qed.

Lemma stored_empty : stored [].
Proof. split; [reflexivity|intros []]. Qed.

(** Every step keeps the column names and values stored so far free of
    padding and pipes. *)
Lemma step_stored (st st' : Parser.State) (line : jsstring) :
  Forall stored (currentHeaders st) -> stored_rows (doc st) ->
  Parser.step st line = OK st' ->
  Forall stored (currentHeaders st') /\ stored_rows (doc st').
Proof.
  intros Hh Hd. unfold Parser.step.
  destruct (is_empty (trim line) && negb (is_empty (currentHeaders st))).
  { intros H. inversion H; subst. simpl. now split. }
  destruct (parseFacetHeader (trim line)).
  { intros H. inversion H; subst. simpl. now split. }
  destruct (currentFacet st) as [facet|].
  2:{ intros H. inversion H; subst. now split. }
  destruct (is_empty (trim line)).
  { intros H. inversion H; subst. now split. }
  destruct (isSeparatorRow (trim line)).
  { intros H. inversion H; subst. simpl. now split. }
  destruct (inDataSection st && isTableRow (trim line)
            && negb (headerParsed st) && is_empty (currentHeaders st)).
  { intros H. inversion H; subst. simpl.
    split; [apply parseTableRow_stored|exact Hd]. }
  destruct (inDataSection st && headerParsed st && isTableRow (trim line)).
  2:{ intros H. inversion H; subst. now split. }
  unfold addRowToFacet.
  destruct (registry_lookup facet); cbn [bind]; intros H; inversion H; subst;
    simpl; (split; [exact Hh|]); try exact Hd.
  apply stored_rows_push; [exact Hd|].
  intros name value Hin. apply In_build_row in Hin as [[]|[H1 H2]].
  simpl in H1, H2. rewrite Forall_forall in Hh. split; [now apply Hh|].
  destruct H2 as [->|H2]; [apply stored_empty|].
  pose proof (parseTableRow_stored (trim line)) as Hc.
  rewrite Forall_forall in Hc. now apply Hc.
Qed.

Lemma parse_lines_stored (lines : list jsstring) :
  forall st st' : Parser.State,
    Forall stored (currentHeaders st) -> stored_rows (doc st) ->
    parse_lines lines st = OK st' ->
    Forall stored (currentHeaders st') /\ stored_rows (doc st').
Proof.
  unfold parse_lines.
  induction lines as [|l ls IH]; intros st st' Hh Hd H; cbn [foldM] in H.
  - inversion H; subst. now split.
  - destruct (Parser.step st l) as [st1|e] eqn:E; cbn [bind] in H;
      [|discriminate].
    destruct (step_stored st st1 l Hh Hd E) as [Hh1 Hd1].
    exact (IH _ _ Hh1 Hd1 H).
Qed.

(** X1. Whatever the text, no column name and no value of a parsed document has
    white space at its ends or holds a pipe: padding never reaches the
    document. *)
Theorem parsed_cells_have_no_padding (content : jsstring) (d : TqlDocument) :
  parseTqlDocumentFromString content = OK d ->
  forall (k : FacetKind) (row : Row) (name value : jsstring),
    In row (rows_of k d) -> In (name, value) row ->
    (trim name = name /\ ~ In c_pipe name)
    /\ (trim value = value /\ ~ In c_pipe value).
Proof.
  unfold parseTqlDocumentFromString. intros H.
  destruct (parse_lines (split c_lf content) (init empty_doc)) as [st|e] eqn:E;
    cbn [bind] in H; [|discriminate].
  inversion H; subst d.
  apply parse_lines_stored in E as [_ Hd]; [exact Hd|constructor|].
  intros k row name value Hin. destruct k; destruct Hin.
Qed.

End StoredFacts.

(** The padded cells of a context section come back without their padding. *)
Lemma parsed_cells_have_no_padding_witness :
  (trim (str "key") = str "key" /\ ~ In c_pipe (str "key"))
  /\ (trim (str "b c") = str "b c" /\ ~ In c_pipe (str "b c")).
Proof.
  assert (H : Parser.parseTqlDocumentFromString
                (join [c_lf] [str "@context[1]:"; str "|  key  | value |";
                              str "|---|---|"; str "|   b c   |  x |"])
              = OK (set_rows Context
                      [[(str "key", str "b c"); (str "value", str "x")]]
                      empty_doc))
    by (vm_compute; reflexivity).
  apply (parsed_cells_have_no_padding _ _ H Context
           [(str "key", str "b c"); (str "value", str "x")]).
  - left. reflexivity.
  - left. reflexivity.
Defined.

(** ** Lines that add nothing *)

Section InertFacts.

Import Parser Inert.

Lemma step_facet_header (st : Parser.State) (line name : jsstring) :
  parseFacetHeader (trim line) = Some name ->
  Parser.step st line = OK (Parser.mkState (doc st) (Some name) [] true false).
Proof.
  intros H. unfold Parser.step. rewrite H.
  destruct (trim line); [discriminate H|reflexivity].
Qed.

Lemma step_inert (st : Parser.State) (line : jsstring) :
  inert st -> no_header line = true ->
  exists st' : Parser.State,
    Parser.step st line = OK st' /\ doc st' = doc st /\ inert st'.
Proof.
  unfold inert, no_header, Parser.step. intros Hi Hn.
  destruct (is_empty (trim line) && negb (is_empty (currentHeaders st))).
  { eexists. split; [reflexivity|]. split; [reflexivity|]. simpl.
    destruct (currentFacet st); [now left|exact I]. }
  destruct (parseFacetHeader (trim line)); [discriminate|].
  destruct (currentFacet st) as [facet|] eqn:Hf.
  2:{ exists st. rewrite Hf. repeat split. }
  destruct (is_empty (trim line)).
  { exists st. rewrite Hf. repeat split. exact Hi. }
  destruct (isSeparatorRow (trim line)).
  { eexists. split; [reflexivity|]. split; [reflexivity|]. exact Hi. }
  destruct (inDataSection st) eqn:Hd.
  - destruct Hi as [Hi|Hi]; [discriminate|].
    destruct (true && isTableRow (trim line) && negb (headerParsed st)
              && is_empty (currentHeaders st)).
    { eexists. split; [reflexivity|]. split; [reflexivity|]. simpl.
      now right. }
    destruct (true && headerParsed st && isTableRow (trim line)).
    + unfold addRowToFacet. rewrite Hi. cbn [bind].
      eexists. split; [reflexivity|]. split; [reflexivity|]. simpl.
      now right.
    + exists st. rewrite Hf. repeat split. now right.
  - cbn [andb]. exists st. rewrite Hf. repeat split. now left.
Qed.

Lemma parse_lines_inert (lines : list jsstring) :
  forall st : Parser.State,
    inert st -> forallb no_header lines = true ->
    exists st' : Parser.State,
      parse_lines lines st = OK st' /\ doc st' = doc st /\ inert st'.
Proof.
  unfold parse_lines.
  induction lines as [|l ls IH]; intros st Hi Hn; cbn [foldM].
  - exists st. repeat split. exact Hi.
  - cbn [forallb] in Hn. apply andb_prop in Hn as [Hl Hls].
    destruct (step_inert st l Hi Hl) as [st1 [-> [Hd1 Hi1]]]. cbn [bind].
    destruct (IH st1 Hi1 Hls) as [st' [Hp [Hd Hi']]].
    exists st'. split; [exact Hp|]. split; [congruence|exact Hi'].
Qed.

(** X2. A text none of whose lines is a facet header parses to the document
    with nine empty facets, whatever table rows it holds. *)
Theorem text_without_facet_header_is_empty (content : jsstring) :
  forallb no_header (split c_lf content) = true ->
  parseTqlDocumentFromString content = OK empty_doc.
Proof.
  intros H. unfold parseTqlDocumentFromString.
  destruct (parse_lines_inert (split c_lf content) (init empty_doc) I H)
    as [st' [-> [Hd _]]].
  cbn [bind]. now rewrite Hd.
Qed.

Lemma text_without_facet_header_is_empty_witness :
  parseTqlDocumentFromString
    (join [c_lf] [str "| id | name |"; str "|----|------|";
                  str "| 1  | Ann  |"])
  = OK empty_doc.
Proof.
  apply text_without_facet_header_is_empty. vm_compute. reflexivity.
Defined.

(** X3. After the blank line that ends a table, no line adds a row to the
    document until the next facet header. *)
Theorem rows_after_blank_line_are_dropped (st : Parser.State)
  (lines : list jsstring) :
  currentHeaders st <> [] ->
  forallb no_header lines = true ->
  exists st' : Parser.State,
    parse_lines ([] :: lines) st = OK st' /\ doc st' = doc st.
Proof.
  intros Hh Hn. unfold parse_lines. cbn [foldM].
  destruct st as [d f hs i p]. cbn [currentHeaders] in Hh.
  rewrite step_blank_line by exact Hh. cbn [bind].
  destruct (parse_lines_inert lines (Parser.mkState d f [] false false))
    as [st' [Hp [Hd _]]].
  - unfold inert. simpl. destruct f; [now left|exact I].
  - exact Hn.
  - exists st'. split; [exact Hp|exact Hd].
Qed.

Lemma rows_after_blank_line_are_dropped_witness :
  exists st' : Parser.State,
    parse_lines [[]; str "| 2 | Bob |"; str "|---|---|"; str "| 3 | Cy |"]
      (Parser.mkState empty_doc (Some (str "table")) [str "id"; str "name"]
         true true)
    = OK st'
    /\ doc st' = empty_doc.
Proof.
  apply (rows_after_blank_line_are_dropped
           (Parser.mkState empty_doc (Some (str "table"))
              [str "id"; str "name"] true true)
           [str "| 2 | Bob |"; str "|---|---|"; str "| 3 | Cy |"]).
  - discriminate.
  - vm_compute. reflexivity.
Defined.

(** X4. The section of a facet that has no entry in the registry can be taken
    out of a text, up to the next facet header, without changing what the
    text parses to. *)
Theorem unregistered_section_adds_nothing
  (content content' hdr name : jsstring) (pre block post : list jsstring) :
  split c_lf content = pre ++ hdr :: block ++ post ->
  split c_lf content' = pre ++ hdr :: post ->
  parseFacetHeader (trim hdr) = Some name ->
  registry_lookup name = Undefined ->
  forallb no_header block = true ->
  post = [] \/ no_header (hd [] post) = false ->
  parseTqlDocumentFromString content = parseTqlDocumentFromString content'.
Proof.
  intros Hs Hs' Hh Hr Hb Hp. unfold parseTqlDocumentFromString.
  rewrite Hs, Hs'. unfold parse_lines. rewrite !foldM_app.
  destruct (foldM Parser.step pre (init empty_doc)) as [st1|e]; cbn [bind];
    [|reflexivity].
  cbn [foldM]. rewrite (step_facet_header st1 hdr name Hh). cbn [bind].
  rewrite foldM_app.
  destruct (parse_lines_inert block
              (Parser.mkState (doc st1) (Some name) [] true false))
    as [st3 [Hp3 [Hd3 _]]].
  - unfold inert. simpl. now right.
  - exact Hb.
  - unfold parse_lines in Hp3. rewrite Hp3. cbn [bind].
    destruct Hp as [->|Hp].
    + cbn [foldM bind]. now rewrite Hd3.
    + destruct post as [|h rest]; [discriminate Hp|].
      cbn [hd] in Hp. unfold no_header in Hp.
      destruct (parseFacetHeader (trim h)) as [n|] eqn:En; [|discriminate].
      cbn [foldM].
      rewrite (step_facet_header st3 h n En).
      rewrite (step_facet_header _ h n En). now rewrite Hd3.
Qed.

Lemma unregistered_section_adds_nothing_witness :
  parseTqlDocumentFromString
    (join [c_lf] [str "@notes[1]:"; str "| a |"; str "|---|"; str "| x |";
                  str "@context[0]:"])
  = parseTqlDocumentFromString
      (join [c_lf] [str "@notes[1]:"; str "@context[0]:"]).
Proof.
  apply (unregistered_section_adds_nothing _ _ (str "@notes[1]:")
           (str "notes") [] [str "| a |"; str "|---|"; str "| x |"]
           [str "@context[0]:"]).
  - vm_compute. reflexivity.
  - vm_compute. reflexivity.
  - vm_compute. reflexivity.
  - vm_compute. reflexivity.
  - vm_compute. reflexivity.
  - right. vm_compute. reflexivity.
Defined.

(** X5. A text none of whose facet headers names a member of [Object.prototype]
    that throws is parsed to a document; and when its first line is no
    conversation header, [parseTqlConversationFromString] returns that
    document as the single entry [#document[+0]]. *)
Theorem text_is_parsed_away_from_prototype (content : jsstring) :
  (forall line name : jsstring,
      In line (split c_lf content) ->
      parseFacetHeader (trim line) = Some name -> safe_name name = true) ->
  exists d : TqlDocument,
    parseTqlDocumentFromString content = OK d
    /\ (forall (first : jsstring) (body : list jsstring),
          split c_lf content = first :: body ->
          Conversation.match_conversation first = None ->
          Conversation.parseTqlConversationFromString content
          = OK (mkConversation [(str "#document[+0]", DocumentValue d)])).
Proof.
  intros H.
  destruct (parse_document_total_on_safe_names content H) as [d Hd].
  exists d. split; [exact Hd|].
  intros first body Hs Hm.
  rewrite (@legacy_mode content first body Hs Hm), Hd. reflexivity.
Qed.

Lemma text_is_parsed_away_from_prototype_witness :
  exists d : TqlDocument,
    parseTqlDocumentFromString
      (join [c_lf] [str "@toString[1]:"; str "| a |"; str "|---|";
                    str "| x |"])
    = OK d.
Proof.
  destruct (text_is_parsed_away_from_prototype
              (join [c_lf] [str "@toString[1]:"; str "| a |"; str "|---|";
                            str "| x |"])) as [d [Hd _]].
  - intros line name Hin Hh. vm_compute in Hin.
    destruct Hin as [<-|[<-|[<-|[<-|[]]]]]; vm_compute in Hh;
      try discriminate Hh.
    inversion Hh. vm_compute. reflexivity.
  - exists d. exact Hd.
Defined.

End InertFacts.

(** ** The row of a data line *)

Section RowShape.

Import Parser.

Lemma get_own_set_other (c k v : jsstring) (o : object) :
  eqb_str c k = false -> get_own c (set k v o) = get_own c o.
Proof.
  intros H. unfold set.
  destruct (get_own k o); [now rewrite get_own_define_own, H|].
  destruct (eqb_str k proto_key); [reflexivity|].
  now rewrite get_own_define_own, H.
Qed.

Lemma get_own_set_same (k v : jsstring) (o : object) :
  eqb_str k proto_key = false -> get_own k (set k v o) = Some v.
Proof.
  intros H. unfold set. rewrite H.
  destruct (get_own k o); now rewrite get_own_define_own, eqb_str_refl.
Qed.

Lemma get_own_build_row_other (c : jsstring) (hs : list jsstring) :
  forall (cells : list jsstring) (i : nat) (row : Row),
    ~ In c hs -> get_own c (build_row hs cells i row) = get_own c row.
Proof.
  induction hs as [|h hs IH]; intros cells i row Hc; cbn [build_row];
    [reflexivity|].
  rewrite IH by (intros Hin; apply Hc; now right).
  apply get_own_set_other. apply eqb_str_neq. intros ->. apply Hc. now left.
Qed.

Lemma get_own_build_row (hs : list jsstring) :
  forall (cells : list jsstring) (i : nat) (row : Row),
    NoDup hs -> ~ In proto_key hs ->
    forall j : nat,
      j < length hs ->
      get_own (nth j hs []) (build_row hs cells i row)
      = Some (nth (i + j) cells []).
Proof.
  induction hs as [|h hs IH]; intros cells i row Hnd Hp j Hj;
    [simpl in Hj; lia|].
  inversion Hnd as [|? ? Hh Hhs]; subst. cbn [build_row].
  destruct j as [|j]; cbn [nth].
  - rewrite get_own_build_row_other by exact Hh.
    rewrite get_own_set_same.
    + unfold cell_at. now rewrite Nat.add_0_r.
    + apply eqb_str_neq. intros ->. apply Hp. now left.
  - rewrite IH.
    + f_equal. f_equal. lia.
    + exact Hhs.
    + intros Hin. apply Hp. now right.
    + simpl in Hj. lia.
Qed.

(** X6. The row built from a data line has the columns of the header row and no
    other: the j-th column holds the j-th cell of the line, the empty string
    when the line has fewer cells, and cells beyond the last column are
    left out. *)
Theorem data_row_has_header_columns (headers cells : list jsstring) :
  NoDup headers -> ~ In proto_key headers ->
  (forall j : nat,
      j < length headers ->
      get_own (nth j headers []) (build_row headers cells 0 [])
      = Some (nth j cells []))
  /\ (forall k : jsstring,
        In k (keys (build_row headers cells 0 [])) -> In k headers).
Proof.
  intros Hnd Hp. split.
  - intros j Hj. now rewrite get_own_build_row.
  - intros k Hk. unfold keys in Hk. apply in_map_iff in Hk as [[k' v] [<- Hin]].
    apply In_build_row in Hin as [[]|[H _]]. exact H.
Qed.

Lemma data_row_has_header_columns_witness :
  get_own (str "name") (build_row [str "id"; str "name"] [str "7"] 0 [])
  = Some [].
Proof.
  assert (Hnd : NoDup [str "id"; str "name"]).
  { constructor; [intros [H|[]]; discriminate H|].
    constructor; [intros []|constructor]. }
  assert (Hp : ~ In proto_key [str "id"; str "name"])
    by (intros [H|[H|[]]]; discriminate H).
  exact (proj1 (data_row_has_header_columns [str "id"; str "name"] [str "7"]
                  Hnd Hp) 1 (Nat.lt_succ_diag_r 1)).
Defined.

End RowShape.

(** ** The lines of a table *)

Section TableShape.

Import Generator Plain.

Lemma list_sum_cons (a : nat) (l : list nat) :
  list_sum (a :: l) = a + list_sum l.
Proof. reflexivity. Qed.

Lemma join_length (sep : jsstring) (parts : list jsstring) :
  length (join sep parts)
  = list_sum (map (fun p => length p) parts)
    + length sep * (length parts - 1).
Proof.
  induction parts as [|p ps IH]; [simpl; lia|].
  destruct ps as [|q ps]; [simpl; lia|].
  rewrite join_cons, !length_app, IH. cbn [map length]. rewrite ?list_sum_cons.
  replace (S (length ps) - 1) with (length ps) by lia.
  replace (S (S (length ps)) - 1) with (S (length ps)) by lia.
  rewrite Nat.mul_succ_r. lia.
Qed.

Lemma combine_map {A B C : Type} (f : A -> B) (g : A -> C) (l : list A) :
  combine (map f l) (map g l) = map (fun x => (f x, g x)) l.
Proof. induction l as [|x l IH]; simpl; [reflexivity|now rewrite IH]. Qed.

Lemma list_sum_padded {A : Type} (f : A -> jsstring) (g : A -> nat)
  (l : list A) :
  (forall x, In x l -> length (f x) <= g x) ->
  list_sum (map (fun p => length p) (padded (map f l) (map g l)))
  = list_sum (map g l).
Proof.
  unfold padded. rewrite combine_map, !map_map. cbn [fst snd].
  induction l as [|x l IH]; intros H; [reflexivity|].
  cbn [map]. rewrite ?list_sum_cons. rewrite padEnd_length by (apply H; now left).
  rewrite IH by (intros y Hy; apply H; now right). reflexivity.
Qed.

Lemma table_line_length {A : Type} (f : A -> jsstring) (g : A -> nat)
  (l : list A) :
  l <> [] -> (forall x, In x l -> length (f x) <= g x) ->
  length (table_line (map f l) (map g l))
  = list_sum (map g l) + 3 * length l + 1.
Proof.
  intros Hne H. rewrite table_line_shape.
  cbn [length]. rewrite length_app. cbn [length]. rewrite length_app.
  rewrite join_length, list_sum_padded by exact H.
  change (length (str " | ")) with 3.
  unfold padded. rewrite combine_map, length_map.
  destruct l; [contradiction|]. rewrite ?length_map. cbn [length]. lia.
Qed.

Lemma separator_line_length (widths : list nat) :
  widths <> [] ->
  length (separator_line widths)
  = list_sum widths + 3 * length widths + 1.
Proof.
  intros Hne. rewrite separator_line_shape.
  cbn [length]. rewrite length_app, join_length, map_map, length_map.
  assert (H : list_sum (map (fun w => length (repeat c_dash (w + 2))) widths)
              = list_sum widths + 2 * length widths).
  { clear. induction widths as [|w ws IH]; [reflexivity|].
    cbn [map length]. rewrite ?list_sum_cons. rewrite repeat_length, IH. lia. }
  rewrite H. change (length (str "|")) with 1.
  destruct widths; [contradiction|]. cbn [length]. lia.
Qed.

Lemma colWidths_cell (rows : list Row) (row : Row) (h : jsstring) :
  In row rows ->
  length (read h row)
  <= Nat.max (length h)
       match rows with
       | [] => 0
       | _ => list_max (map (fun row => length (read h row)) rows)
       end.
Proof.
  intros Hin. destruct rows as [|r rs]; [contradiction|].
  etransitivity; [|apply Nat.le_max_r].
  assert (H : Forall (fun k => k <= list_max (map (fun row0 => length (read h row0))
                                               (r :: rs)))
                     (map (fun row0 => length (read h row0)) (r :: rs)))
    by now apply list_max_le.
  rewrite Forall_forall in H. apply H.
  apply in_map_iff. now exists row.
Qed.

(** X7. In a section [generateTable] writes for at least one column, the
    column header row, the dashed row and every data row have the same
    length: the sum of the column widths, and three characters for each
    column, and one. *)
Theorem table_lines_have_one_length (headers : list jsstring)
  (rows : list Row) (rowCount : nat) (facetName line : jsstring) :
  headers <> [] ->
  In line (tl (table_lines headers rows rowCount facetName)) ->
  length line = list_sum (colWidths headers rows) + 3 * length headers + 1.
Proof.
  intros Hne Hin. unfold table_lines in Hin. cbn [tl] in Hin.
  unfold colWidths in *.
  rewrite <- (map_id headers) in Hin at 1.
  destruct Hin as [<-|[<-|Hin]].
  - rewrite table_line_length; [reflexivity|exact Hne|].
    intros h _. apply Nat.le_max_l.
  - rewrite separator_line_length, length_map; [reflexivity|].
    intros E. apply map_eq_nil in E. contradiction.
  - apply in_map_iff in Hin as [row [<- Hrow]].
    unfold data_line, cells_of. rewrite table_line_length;
      [reflexivity|exact Hne|].
    intros h _. now apply colWidths_cell.
Qed.

Lemma table_lines_have_one_length_witness :
  length (data_line (facet_headers Context indexed_doc)
            (colWidths (facet_headers Context indexed_doc)
               (rows_of Context indexed_doc))
            [(str "index", str "1"); (str "key", str "user_timezone");
             (str "value", str "MST")])
  = list_sum (colWidths (facet_headers Context indexed_doc)
                (rows_of Context indexed_doc))
    + 3 * length (facet_headers Context indexed_doc) + 1.
Proof.
  apply (table_lines_have_one_length (facet_headers Context indexed_doc)
           (rows_of Context indexed_doc) 1 (str "context")).
  - discriminate.
  - right. right. left. reflexivity.
Defined.

End TableShape.

(** ** A parsed text is written and parsed to itself *)

Section FixedPoint.

Import Generator Parser Plain.











End FixedPoint.

(** ** Rows of empty values *)

Section EmptyRows.

Import Generator Parser Plain.




End EmptyRows.

(** ** A conversation whose count matches *)

Section ConversationSuccess.

Import Parser Conversation Sections.

(** X9. When the declared count is the number of document sections that have a
    line after their header, and these sections parse,
    [parseTqlConversationFromString] returns one entry for each of them, in
    the order of the text and under the key of its header. *)
Theorem conversation_with_matching_count (content first digits : jsstring)
  (body : list jsstring) :
  split c_lf content = first :: body ->
  match_conversation first = Some digits ->
  parseInt digits = N.of_nat (length (document_sections body)) ->
  (forall s, In s (document_sections body) ->
     exists d, parseTqlDocumentFromString (join [c_lf] (snd s)) = OK d) ->
  exists seq : list SequenceItem,
    parseTqlConversationFromString content = OK (mkConversation seq)
    /\ map fst seq = map fst (document_sections body)
    /\ Forall (fun item => exists d, snd item = DocumentValue d) seq.
Proof.
  intros Hs Hm Hn Hp.
  rewrite (@conversation_mode content first digits body Hs Hm).
  destruct (@parse_sections_total (document_sections body) Hp) as [its Hits].
  rewrite Hits. cbn [bind]. rewrite Hn, N.eqb_refl.
  exists its. split; [reflexivity|].
  exact (@parse_sections_items (document_sections body) its Hits).
Qed.

Lemma conversation_with_matching_count_witness :
  exists seq : list SequenceItem,
    parseTqlConversationFromString diff_text = OK (mkConversation seq)
    /\ map fst seq = [str "#document[+0]"; str "#document[+1]"]
    /\ Forall (fun item => exists d, snd item = DocumentValue d) seq.
Proof.
  assert (Hs : exists first body,
             split c_lf diff_text = first :: body
             /\ match_conversation first = Some (str "2")
             /\ map fst (document_sections body)
                = [str "#document[+0]"; str "#document[+1]"]
             /\ parseInt (str "2") = N.of_nat (length (document_sections body))
             /\ forall s, In s (document_sections body) ->
                  exists d,
                    parseTqlDocumentFromString (join [c_lf] (snd s)) = OK d).
  { eexists. eexists. split; [vm_compute; reflexivity|].
    split; [vm_compute; reflexivity|].
    split; [vm_compute; reflexivity|].
    split; [vm_compute; reflexivity|].
    intros s Hin. vm_compute in Hin.
    destruct Hin as [<-|[<-|[]]]; eexists; vm_compute; reflexivity. }
  destruct Hs as [first [body [Hs [Hm [Hk [Hn Hp]]]]]].
  destruct (conversation_with_matching_count diff_text first (str "2") body
              Hs Hm Hn Hp) as [seq [H1 [H2 H3]]].
  exists seq. split; [exact H1|]. split; [congruence|exact H3].
Defined.

End ConversationSuccess.

(** ** The score template *)

Section ScoreFacts.

Import Generator Parser ScoreTemplate.

(** X10. The text [generateScoreFacet] writes is the section [generateTable]
    writes for four score rows numbered from 1 with an empty value, and the
    parser reads these four rows from it. *)
Theorem score_template_is_a_score_section :
  generateScoreFacet
  = generateTable [str "index"; str "measure"; str "value"] score_rows
      (length score_rows) (str "score")
  /\ parseTqlDocumentFromString generateScoreFacet
     = OK (set_rows Score score_rows empty_doc)
  /\ map (fun row => get_own (str "index") row) score_rows
     = [Some (str "1"); Some (str "2"); Some (str "3"); Some (str "4")].
Proof. repeat split; vm_compute; reflexivity. Qed.

End ScoreFacts.

(** ** Command-line input *)

Section CliFacts.

Import Cli.

Lemma parseInt_acc (u : Decimal.uint) :
  forall acc : nat,
    fold_left (fun a d => (10 * a + (d - 48))%N) (digits_of_uint u)
      (N.of_nat acc)
    = N.of_nat (Nat.of_uint_acc u acc).
Proof.
  induction u; intros acc; cbn [digits_of_uint fold_left Nat.of_uint_acc];
    [reflexivity| | | | | | | | | |];
    rewrite <- IHu; f_equal; rewrite Nat.tail_mul_spec; lia.
Qed.

(** Reading the decimal form of a number gives the number. *)
Lemma parseInt_number_to_string (n : nat) :
  parseInt (number_to_string n) = N.of_nat n.
Proof.
  unfold parseInt, number_to_string.
  change 0%N with (N.of_nat 0). rewrite parseInt_acc.
  change (Nat.of_uint_acc (Nat.to_uint n) 0) with (Nat.of_uint (Nat.to_uint n)).
  now rewrite DecimalNat.Unsigned.of_to.
Qed.

Lemma digit_not_ws (c : char) : is_digit c = true -> is_ws c = false.
Proof.
  unfold is_digit, is_ws. intros H. apply andb_prop in H as [H1 H2].
  apply N.leb_le in H1, H2.
  repeat (apply orb_false_intro);
    try (apply andb_false_iff; right; apply N.leb_gt; lia);
    try (apply andb_false_iff; left; apply N.leb_gt; lia);
    apply N.eqb_neq; lia.
Qed.

Lemma span_all (p : char -> bool) (s : jsstring) :
  forallb p s = true -> span p s = (s, []).
Proof.
  induction s as [|c s IH]; simpl; [reflexivity|].
  intros H. apply andb_prop in H as [Hc Hs]. now rewrite Hc, IH.
Qed.

Lemma trim_digits (ds : jsstring) :
  forallb is_digit ds = true -> trim ds = ds.
Proof.
  intros H. destruct ds as [|c ds]; [reflexivity|].
  destruct (@exists_last _ (c :: ds)) as [s [l E]]; [discriminate|].
  assert (Hc : is_ws c = false).
  { cbn [forallb] in H. apply andb_prop in H as [H _].
    now apply digit_not_ws. }
  assert (Hl : is_ws l = false).
  { rewrite forallb_forall in H. apply digit_not_ws, H. rewrite E.
    apply in_or_app. right. now left. }
  destruct s as [|c' s]; simpl in E; inversion E; subst.
  - unfold trim. rewrite trimStart_head by exact Hc.
    now apply (trimEnd_last []).
  - now apply trim_line.
Qed.

Lemma to_number_exact (v : N) : (v <= 2 ^ 53)%N -> to_number v = Some v.
Proof.
  intros H. apply N.lt_eq_cases in H as [H| ->].
  - unfold to_number. apply N.ltb_lt in H. now rewrite H.
  - vm_compute. reflexivity.
Qed.

Lemma parseInt10_digits (n : nat) :
  (N.of_nat n <= 2 ^ 53)%N ->
  parseInt10 (trim (number_to_string n)) = Some (Integer false (N.of_nat n)).
Proof.
  intros Hb.
  pose proof (number_to_string_digits n) as Hd.
  pose proof (number_to_string_nonempty n) as Hne.
  rewrite trim_digits by exact Hd. unfold parseInt10.
  assert (Hs : trimStart (number_to_string n) = number_to_string n).
  { pose proof (trim_digits _ Hd) as Ht. now apply trim_fixed in Ht. }
  rewrite Hs.
  destruct (number_to_string n) as [|c r] eqn:E; [contradiction|].
  assert (Hc : is_digit c = true)
    by (cbn [forallb] in Hd; now apply andb_prop in Hd).
  assert (H45 : N.eqb c 45 = false).
  { apply N.eqb_neq. intros ->. discriminate Hc. }
  assert (H43 : N.eqb c 43 = false).
  { apply N.eqb_neq. intros ->. discriminate Hc. }
  rewrite H45, H43. cbn [fst snd]. rewrite span_all by exact Hd.
  rewrite <- E, parseInt_number_to_string, to_number_exact by exact Hb.
  reflexivity.
Qed.

Lemma all_numbers_digits (ns : list nat) :
  Forall (fun n => (N.of_nat n <= 2 ^ 53)%N) ns ->
  all_numbers (map (fun idx => parseInt10 (trim idx))
                   (map number_to_string ns))
  = Some (map (fun n => Integer false (N.of_nat n)) ns).
Proof.
  induction 1 as [|n ns Hn _ IH]; [reflexivity|].
  cbn [map all_numbers]. now rewrite parseInt10_digits, IH.
Qed.

Lemma digits_no_comma (n : nat) : ~ In 44%N (number_to_string n).
Proof.
  intros H. pose proof (number_to_string_digits n) as Hd.
  rewrite forallb_forall in Hd. apply Hd in H. discriminate H.
Qed.

(** X11. The [--indices] flag of the delete command reads a list of numbers
    up to 2^53, written in decimal and separated by commas, as that list. *)
Theorem indices_flag_reads_numbers (ns : list nat) :
  ns <> [] ->
  Forall (fun n => (N.of_nat n <= 2 ^ 53)%N) ns ->
  indices_of_flag (Some (join [44%N] (map number_to_string ns)))
  = Indices (map (fun n => Integer false (N.of_nat n)) ns).
Proof.
  intros Hne Hb. unfold indices_of_flag.
  assert (Hnonempty : is_empty (join [44%N] (map number_to_string ns)) = false).
  { destruct ns as [|n ns]; [contradiction|]. cbn [map].
    pose proof (number_to_string_nonempty n) as Hn.
    destruct ns; [cbn [map join]|cbn [map]; rewrite join_cons];
      destruct (number_to_string n); [contradiction|reflexivity
                                     |contradiction|reflexivity]. }
  rewrite Hnonempty, split_join.
  - now rewrite all_numbers_digits.
  - intros E. apply map_eq_nil in E. contradiction.
  - apply Forall_forall. intros p Hp. apply in_map_iff in Hp as [n [<- _]].
    apply digits_no_comma.
Qed.

Lemma indices_flag_reads_numbers_witness :
  indices_of_flag (Some (str "1,2,3"))
  = Indices [Integer false 1; Integer false 2; Integer false 3].
Proof.
  apply (indices_flag_reads_numbers [1; 2; 3]).
  - discriminate.
  - repeat constructor; vm_compute; discriminate.
Defined.

(** Number.parseInt stops at the first character that is no digit, so a
    token with text after its number is taken as the number; a token with
    no leading number makes the flag invalid, and so does an empty token.
    Above 2^53 the number read is the nearest double, not the number
    written. *)
Example indices_flag_edge_cases :
  indices_of_flag (Some (str " 1 , 2x,+3"))
  = Indices [Integer false 1; Integer false 2; Integer false 3]
  /\ indices_of_flag (Some (str "1,,3")) = InvalidIndicesFormat
  /\ indices_of_flag (Some (str "1,b")) = InvalidIndicesFormat
  /\ indices_of_flag (Some (str "")) = MustProvideIndex
  /\ indices_of_flag (Some (str "9007199254740993,-0"))
     = Indices [Integer false 9007199254740992; Integer true 0].
Proof. repeat split; vm_compute; reflexivity. Qed.

Lemma csv_cell_spec (v : jsstring) :
  csv_cell v = true -> trim v = v /\ ~ In 44%N v /\ ~ In c_lf v.
Proof.
  unfold csv_cell. intros H.
  apply andb_prop in H as [H Hlf]. apply andb_prop in H as [Ht Hp].
  apply eqb_str_eq in Ht. split; [exact Ht|].
  split; intros Hin.
  - apply negb_true_iff in Hp.
    assert (existsb (N.eqb 44%N) v = true)
      by (apply existsb_exists; exists 44%N; split;
          [exact Hin|apply N.eqb_refl]).
    congruence.
  - apply negb_true_iff in Hlf.
    assert (existsb (N.eqb c_lf) v = true)
      by (apply existsb_exists; exists c_lf; split;
          [exact Hin|apply N.eqb_refl]).
    congruence.
Qed.

Lemma csv_line_cells (cells : list jsstring) :
  cells <> [] -> forallb csv_cell cells = true ->
  map trim (split 44%N (join [44%N] cells)) = cells
  /\ ~ In c_lf (join [44%N] cells).
Proof.
  intros Hne Hc. rewrite forallb_forall in Hc. split.
  - rewrite split_join.
    + rewrite <- (map_id cells) at 2. apply map_ext_in.
      intros c Hin. now apply Hc, csv_cell_spec in Hin.
    + exact Hne.
    + apply Forall_forall. intros c Hin. now apply Hc, csv_cell_spec in Hin.
  - intros H. apply In_join in H as [[H|[]]|[c [Hin Hlf]]]; [discriminate H|].
    apply Hc, csv_cell_spec in Hin. tauto.
Qed.

(** X12. The CSV reader of [createFromCsvStdin] reads the text of a header line
    and rows back as these, when no line is without cells, no cell holds a
    comma, a line feed or white space at its ends, and the text as a whole
    is not empty and has no white space at its ends. *)
Theorem csv_of_stdin_reads_cells (headers : list jsstring)
  (rows : list (list jsstring)) :
  forallb (fun line => negb (is_empty line) && forallb csv_cell line)
          (headers :: rows) = true ->
  csv_text headers rows <> [] ->
  trim (csv_text headers rows) = csv_text headers rows ->
  csv_of_stdin (csv_text headers rows) = Some (headers, rows).
Proof.
  intros Hall Hne Ht. unfold csv_of_stdin. rewrite Ht.
  destruct (csv_text headers rows) as [|c0 text0] eqn:E; [contradiction|].
  cbn [is_empty]. rewrite <- E. unfold csv_text.
  assert (Hlines : forall line,
             In line (headers :: rows) ->
             map trim (split 44%N (join [44%N] line)) = line
             /\ ~ In c_lf (join [44%N] line)).
  { intros line Hin. rewrite forallb_forall in Hall.
    apply Hall, andb_prop in Hin as [H1 H2].
    apply csv_line_cells; [|exact H2].
    destruct line; [discriminate H1|discriminate]. }
  rewrite split_join.
  - cbn [map hd tl]. f_equal. f_equal.
    + apply Hlines. now left.
    + rewrite map_map. rewrite <- (map_id rows) at 2. apply map_ext_in.
      intros line Hin. apply Hlines. now right.
  - discriminate.
  - apply Forall_forall. intros l Hl. apply in_map_iff in Hl as [line [<- Hin]].
    now apply Hlines.
Qed.

Lemma csv_of_stdin_reads_cells_witness :
  csv_of_stdin (str "id,product,price
1,Widget,9.99
2,Gadget,")
  = Some ([str "id"; str "product"; str "price"],
          [[str "1"; str "Widget"; str "9.99"];
           [str "2"; str "Gadget"; str ""]]).
Proof.
  apply (csv_of_stdin_reads_cells [str "id"; str "product"; str "price"]
           [[str "1"; str "Widget"; str "9.99"];
            [str "2"; str "Gadget"; str ""]]).
  - vm_compute. reflexivity.
  - discriminate.
  - vm_compute. reflexivity.
Defined.

(** A row of blank cells at the end of the text is lost with the white
    space the reader trims, and a carriage return before a line feed is
    trimmed with the cell it follows. *)
Example csv_of_stdin_edge_cases :
  csv_of_stdin (str "a" ++ [c_lf] ++ str " " ++ [c_lf])
  = Some ([str "a"], [])
  /\ csv_of_stdin (str "a,b" ++ [13%N; c_lf] ++ str "1,2" ++ [13%N; c_lf])
     = Some ([str "a"; str "b"], [[str "1"; str "2"]])
  /\ csv_of_stdin (str "  ") = None.
Proof. repeat split; vm_compute; reflexivity. Qed.

End CliFacts.

(** ** Writing a conversation and reading it *)

Section ConversationRoundTrip.

Import Generator Parser Conversation Sections Plain ConversationGenerator.

Variable getDocumentCount : TqlConversation -> nat.
Variable formatDiffAsMarkdown : SequenceValue -> bool -> jsstring.

Lemma strip_prefix_app (p s : jsstring) : strip_prefix p (p ++ s) = Some s.
Proof.
  induction p as [|x p IH]; [reflexivity|].
  cbn [app strip_prefix]. now rewrite N.eqb_refl.
Qed.

Lemma digits_no_lf (ds : jsstring) :
  forallb is_digit ds = true -> ~ In c_lf ds.
Proof.
  intros H Hin. rewrite forallb_forall in H. apply H in Hin. discriminate Hin.
Qed.

Ltac lf_free Hin :=
  lazymatch type of Hin with
  | In _ (_ ++ _) =>
      apply in_app_or in Hin; destruct Hin as [Hin|Hin]; lf_free Hin
  | In _ (_ :: _) =>
      destruct Hin as [Hin|Hin];
      [vm_compute in Hin; discriminate Hin|lf_free Hin]
  | In _ [] => destruct Hin
  | In _ (str _) => cbn in Hin; lf_free Hin
  | _ \/ _ =>
      destruct Hin as [Hin|Hin]; [discriminate Hin|lf_free Hin]
  | False => destruct Hin
  | In _ _ =>
      exfalso; revert Hin; apply digits_no_lf;
      (assumption || apply number_to_string_digits)
  end.

Lemma match_document_written (digits : jsstring) :
  digits <> [] -> forallb is_digit digits = true ->
  match_document ((str "#document[+" ++ digits ++ str "]") ++ str ":")
  = Some (str "#document[+" ++ digits ++ str "]").
Proof.
  intros Hne Hd. unfold match_document.
  rewrite <- !app_assoc, strip_prefix_app.
  change (digits ++ str "]" ++ str ":") with (digits ++ 93%N :: [58%N]).
  rewrite plus_app by (assumption || reflexivity). reflexivity.
Qed.

Lemma match_diff_written (i j : jsstring) :
  i <> [] -> forallb is_digit i = true ->
  j <> [] -> forallb is_digit j = true ->
  match_diff ((str "$diff[+" ++ i ++ c_arrow :: str "+" ++ j ++ str "]")
              ++ str ":")
  = Some (str "$diff[+" ++ i ++ c_arrow :: str "+" ++ j ++ str "]").
Proof.
  intros Hi Hdi Hj Hdj. unfold match_diff.
  rewrite <- !app_assoc, strip_prefix_app.
  replace ((c_arrow :: str "+" ++ j ++ str "]") ++ str ":")
    with (c_arrow :: (str "+" ++ j ++ 93%N :: [58%N]))
    by (change (str "+") with [43%N]; cbn [app]; now rewrite <- app_assoc).
  rewrite plus_app by (assumption || reflexivity).
  change (strip_prefix (c_arrow :: str "+")
            (c_arrow :: (str "+" ++ j ++ 93%N :: [58%N])))
    with (Some (j ++ 93%N :: [58%N])).
  cbv beta iota.
  rewrite plus_app by (assumption || reflexivity). reflexivity.
Qed.

(** The header line of a written entry opens a section under its key, and
    holds no line feed. *)
Lemma header_key_written (item : SequenceItem) :
  written_item formatDiffAsMarkdown item ->
  header_key (fst item ++ str ":") = Some (fst item)
  /\ ~ In c_lf (fst item ++ str ":")
  /\ is_document_item item
     = match snd item with DocumentValue _ => true | DiffValue _ => false end
  /\ (is_document_item item = false ->
      startsWith (fst item) (str "$diff") = true).
Proof.
  destruct item as [key [d|d]]; unfold written_item; cbn [fst snd].
  - intros [[digits [Hne [Hd ->]]] _]. unfold header_key.
    rewrite match_document_written by assumption.
    split; [reflexivity|]. split; [|split; [reflexivity|discriminate]].
    intros Hin. lf_free Hin.
  - intros [[i [j [Hi [Hdi [Hj [Hdj ->]]]]]] _]. unfold header_key.
    rewrite match_diff_written by assumption.
    split; [reflexivity|]. split; [|split; reflexivity].
    intros Hin. lf_free Hin.
Qed.

Lemma section_lines_no_header (k : FacetKind) (d : TqlDocument) :
  Forall (fun l => header_key l = None) (section_lines k d).
Proof.
  unfold section_lines, table_lines.
  repeat (constructor; [reflexivity|]).
  apply Forall_forall. intros l Hl. apply in_map_iff in Hl as [row [<- _]].
  reflexivity.
Qed.

Lemma document_lines_no_header (d : TqlDocument) (ks : list FacetKind) :
  Forall (fun l => header_key l = None) (document_lines ks d).
Proof.
  induction ks as [|k ks IH]; [constructor|].
  destruct ks as [|k' ks]; [apply section_lines_no_header|].
  change (document_lines (k :: k' :: ks) d)
    with (section_lines k d ++ [] :: document_lines (k' :: ks) d).
  apply Forall_app. split; [apply section_lines_no_header|].
  constructor; [reflexivity|exact IH].
Qed.

Lemma split_generate (d : TqlDocument) :
  readable_doc d = true ->
  split c_lf (generateTqlFromJson d) = document_lines all_facets d.
Proof.
  intros H. rewrite generate_lines. apply split_join.
  - apply document_lines_nonempty.
  - now apply document_lines_no_lf.
Qed.

(** The lines of the body of a written entry open no section. *)
Lemma item_body_no_header (item : SequenceItem) :
  written_item formatDiffAsMarkdown item ->
  Forall (fun l => header_key l = None)
         (split c_lf (item_body formatDiffAsMarkdown item)).
Proof.
  destruct item as [key [d|d]]; unfold written_item, item_body; cbn [fst snd].
  - intros [_ Hr]. rewrite split_generate by exact Hr.
    apply document_lines_no_header.
  - now intros [_ H].
Qed.

Lemma sections_from_content (ls : list jsstring) :
  Forall (fun l => header_key l = None) ls ->
  forall (key : jsstring) (content rest : list jsstring),
    sections_from key content (ls ++ rest)
    = sections_from key (content ++ ls) rest.
Proof.
  induction 1 as [|l ls Hl _ IH]; intros key content rest.
  - now rewrite app_nil_r.
  - cbn [app sections_from]. rewrite Hl, IH, <- app_assoc. reflexivity.
Qed.

Lemma sections_from_written (items : list SequenceItem) :
  Forall (written_item formatDiffAsMarkdown) items ->
  forall (key : jsstring) (content : list jsstring),
    sections_from key content (sequence_lines formatDiffAsMarkdown items)
    = (key, content) :: written_sections formatDiffAsMarkdown items.
Proof.
  induction 1 as [|item rest Hi _ IH]; intros key content; [reflexivity|].
  destruct (header_key_written item Hi) as [Hk _].
  pose proof (item_body_no_header item Hi) as Hb.
  cbn [sequence_lines written_sections]. unfold item_lines.
  cbn [app sections_from]. rewrite Hk. f_equal.
  rewrite (sections_from_content _ Hb). cbn [app].
  destruct rest as [|item' rest];
    [cbn [sections_from written_sections]; now rewrite app_nil_r|].
  change (sections_from (fst item)
            (split c_lf (item_body formatDiffAsMarkdown item))
            ([] :: sequence_lines formatDiffAsMarkdown (item' :: rest)))
    with (sections_from (fst item)
            (split c_lf (item_body formatDiffAsMarkdown item) ++ [[]])
            (sequence_lines formatDiffAsMarkdown (item' :: rest))).
  apply IH.
Qed.

Lemma sections_written (items : list SequenceItem) :
  Forall (written_item formatDiffAsMarkdown) items ->
  sections ([] :: sequence_lines formatDiffAsMarkdown items)
  = written_sections formatDiffAsMarkdown items.
Proof.
  intros H.
  change (sections ([] :: sequence_lines formatDiffAsMarkdown items))
    with (sections (sequence_lines formatDiffAsMarkdown items)).
  destruct H as [|item rest Hi Hrest]; [reflexivity|].
  destruct (header_key_written item Hi) as [Hk _].
  pose proof (item_body_no_header item Hi) as Hb.
  cbn [sequence_lines written_sections]. unfold item_lines.
  cbn [app sections]. rewrite Hk.
  rewrite (sections_from_content _ Hb). cbn [app].
  destruct rest as [|item' rest];
    [cbn [sections_from written_sections]; now rewrite app_nil_r|].
  change (sections_from (fst item)
            (split c_lf (item_body formatDiffAsMarkdown item))
            ([] :: sequence_lines formatDiffAsMarkdown (item' :: rest)))
    with (sections_from (fst item)
            (split c_lf (item_body formatDiffAsMarkdown item) ++ [[]])
            (sequence_lines formatDiffAsMarkdown (item' :: rest))).
  apply (sections_from_written _ Hrest).
Qed.

Lemma step_blank_doc (st : Parser.State) :
  exists st' : Parser.State,
    Parser.step st [] = OK st' /\ doc st' = doc st.
Proof.
  unfold Parser.step. change (trim []) with (@nil char).
  cbn [is_empty andb].
  destruct (negb (is_empty (currentHeaders st)));
    [eexists; split; reflexivity|].
  change (parseFacetHeader []) with (@None jsstring). cbv beta iota.
  destruct (currentFacet st); eexists; split; reflexivity.
Qed.

(** A document section parses to the document the text shows, also with
    the empty line that separates it from the next entry. *)
Lemma parse_written_document (d : TqlDocument) (last : list jsstring) :
  readable_doc d = true -> last = [] \/ last = [[]] ->
  parseTqlDocumentFromString
    (join [c_lf] (split c_lf (generateTqlFromJson d) ++ last))
  = OK (shown d).
Proof.
  intros Hr [->| ->]; rewrite split_generate by exact Hr.
  - rewrite app_nil_r, <- generate_lines. now apply parse_generate.
  - unfold parseTqlDocumentFromString. rewrite split_join.
    + unfold parse_lines. rewrite foldM_app.
      destruct (@parse_document_lines d all_facets Hr (init empty_doc))
        as [st' [E Hd]].
      unfold parse_lines in E. rewrite E. cbn [bind foldM].
      destruct (step_blank_doc st') as [st'' [E' Hd']].
      rewrite E'. cbn [bind]. rewrite Hd', Hd. reflexivity.
    + destruct (document_lines all_facets d); discriminate.
    + apply Forall_app. split; [now apply document_lines_no_lf|].
      constructor; [intros []|constructor].
Qed.

Lemma parse_written_sections (items : list SequenceItem) :
  Forall (written_item formatDiffAsMarkdown) items ->
  parse_sections
    (filter is_document_section
       (written_sections formatDiffAsMarkdown items))
  = OK (read_back items)
  /\ length (filter is_document_section
               (written_sections formatDiffAsMarkdown items))
     = length (filter is_document_item items).
Proof.
  induction 1 as [|item rest Hi _ [IH1 IH2]]; [split; reflexivity|].
  destruct (header_key_written item Hi) as [_ [_ [Hdoc _]]].
  assert (Hsec : is_document_section
                   (fst item,
                    split c_lf (item_body formatDiffAsMarkdown item)
                    ++ match rest with [] => [] | _ :: _ => [[]] end)
                 = is_document_item item).
  { unfold is_document_section. cbn [fst snd].
    change (startsWith (fst item) (str "#document"))
      with (is_document_item item).
    destruct (split_cons c_lf (item_body formatDiffAsMarkdown item))
      as [f [r ->]].
    cbn [app is_empty negb]. apply andb_true_r. }
  cbn [written_sections filter]. rewrite Hsec, Hdoc.
  destruct item as [key [d|d]]; cbn [fst snd read_back] in *.
  - cbn [parse_sections length]. unfold item_body. cbn [snd].
    destruct Hi as [_ Hr]. cbn [snd] in Hr.
    rewrite parse_written_document;
      [|exact Hr|destruct rest; [now left|now right]].
    cbn [bind]. rewrite IH1. cbn [bind]. split; [reflexivity|].
    now rewrite IH2.
  - split; assumption.
Qed.

Lemma sequence_sections_lines (items : list SequenceItem) :
  Forall (written_item formatDiffAsMarkdown) items ->
  exists secs : list jsstring,
    sequence_sections formatDiffAsMarkdown items = OK secs
    /\ concat (map (split c_lf) secs)
       = sequence_lines formatDiffAsMarkdown items.
Proof.
  induction 1 as [|item rest Hi _ [more [E IH]]];
    [exists []; split; reflexivity|].
  destruct (header_key_written item Hi) as [_ [Hlf [Hdoc Hdiff]]].
  assert (Hp : item_sections formatDiffAsMarkdown item
               = OK [fst item ++ str ":";
                     item_body formatDiffAsMarkdown item]).
  { unfold item_sections, item_body.
    change (startsWith (fst item) (str "#document"))
      with (is_document_item item).
    destruct (is_document_item item) eqn:Ed.
    - destruct (snd item); [reflexivity|discriminate Hdoc].
    - rewrite (Hdiff eq_refl).
      destruct (snd item); [discriminate Hdoc|reflexivity]. }
  cbn [sequence_sections sequence_lines]. rewrite Hp. cbn [bind].
  unfold item_lines.
  destruct rest as [|item' rest].
  - eexists. split; [reflexivity|].
    cbn [map concat]. rewrite split_no_sep by exact Hlf.
    now rewrite !app_nil_r.
  - rewrite E. cbn [bind]. eexists. split; [reflexivity|].
    cbn [app map concat]. rewrite split_no_sep by exact Hlf.
    rewrite IH. reflexivity.
Qed.

Lemma match_conversation_written (n : nat) :
  match_conversation
    (str "#conversation[" ++ number_to_string n ++ str "]:")
  = Some (number_to_string n).
Proof.
  unfold match_conversation. rewrite strip_prefix_app.
  change (number_to_string n ++ str "]:")
    with (number_to_string n ++ 93%N :: [58%N]).
  rewrite plus_app
    by (apply number_to_string_nonempty || apply number_to_string_digits
        || reflexivity).
  reflexivity.
Qed.

(** X13. [parseTqlConversationFromString] reads the text
    [generateTqlFromConversation] writes for a sequence of documents and
    diffs: it compares the number of documents with the count
    [getDocumentCount] gave for the header, and returns the documents, as
    their text shows them, without the diffs. *)
Theorem conversation_text_is_read_back (conversation : TqlConversation) :
  Forall (written_item formatDiffAsMarkdown) (sequence conversation) ->
  exists text : jsstring,
    generateTqlFromConversation getDocumentCount formatDiffAsMarkdown
      conversation
    = OK text
    /\ parseTqlConversationFromString text
       = if N.eqb
              (N.of_nat
                 (length (filter is_document_item (sequence conversation))))
              (N.of_nat (getDocumentCount conversation))
         then OK (mkConversation (read_back (sequence conversation)))
         else Throw (FormatError
                       (N.of_nat (getDocumentCount conversation))
                       (length (filter is_document_item
                                  (sequence conversation)))).
Proof.
  intros Hw. unfold generateTqlFromConversation.
  destruct (sequence_sections_lines _ Hw) as [secs [E Hlines]].
  rewrite E. cbn [bind]. eexists. split; [reflexivity|].
  assert (Hs : split c_lf
                 (join [c_lf]
                    ((str "#conversation["
                      ++ number_to_string (getDocumentCount conversation)
                      ++ str "]:") :: [] :: secs))
               = (str "#conversation["
                  ++ number_to_string (getDocumentCount conversation)
                  ++ str "]:")
                 :: [] :: sequence_lines formatDiffAsMarkdown
                            (sequence conversation)).
  { rewrite split_join_concat by discriminate.
    cbn [map concat]. rewrite Hlines.
    rewrite split_no_sep.
    - reflexivity.
    - intros Hin. lf_free Hin. }
  rewrite (@conversation_mode _ _ _ _ Hs (match_conversation_written _)).
  unfold document_sections. rewrite (sections_written _ Hw).
  destruct (parse_written_sections _ Hw) as [-> ->].
  cbn [bind]. now rewrite parseInt_number_to_string.
Qed.

End ConversationRoundTrip.

Lemma conversation_text_is_read_back_witness :
  exists text : jsstring,
    ConversationGenerator.generateTqlFromConversation
      (fun conversation =>
         length (filter Conversation.is_document_item
                   (sequence conversation)))
      (fun _ _ => str "no changes")
      (mkConversation
         [(str "#document[+0]", DocumentValue scenario_doc);
          (str "$diff[+0" ++ c_arrow :: str "+1]",
           DiffValue (Diff.mkTqlDiff [] 0 0 0));
          (str "#document[+1]", DocumentValue empty_row_doc)])
    = OK text
    /\ Conversation.parseTqlConversationFromString text
       = OK (mkConversation
               [(str "#document[+0]",
                 DocumentValue (Plain.shown scenario_doc));
                (str "#document[+1]",
                 DocumentValue (Plain.shown empty_row_doc))]).
Proof.
  apply (conversation_text_is_read_back
           (fun conversation =>
              length (filter Conversation.is_document_item
                        (sequence conversation)))
           (fun _ _ => str "no changes")
           (mkConversation
              [(str "#document[+0]", DocumentValue scenario_doc);
               (str "$diff[+0" ++ c_arrow :: str "+1]",
                DiffValue (Diff.mkTqlDiff [] 0 0 0));
               (str "#document[+1]", DocumentValue empty_row_doc)])).
  repeat constructor.
  - exists (str "0"). repeat split; (discriminate || reflexivity).
  - exists (str "0"), (str "1"). repeat split; (discriminate || reflexivity).
  - exists (str "1"). repeat split; (discriminate || reflexivity).
Defined.

(** ** The row count of a facet header *)

Section FacetCount.

Import Parser.

Lemma word_no_lf (name : jsstring) :
  forallb is_word name = true -> ~ In c_lf name.
Proof.
  intros H Hin. rewrite forallb_forall in H. apply H in Hin. discriminate Hin.
Qed.

Lemma header_line_shape (name count : jsstring) :
  str "@" ++ name ++ str "[" ++ count ++ str "]:"
  = c_at :: (name ++ c_lbracket :: count ++ [93%N]) ++ [58%N].
Proof.
  change (str "@" ++ name ++ str "[" ++ count ++ str "]:")
    with (c_at :: (name ++ c_lbracket :: (count ++ 93%N :: [58%N]))).
  rewrite <- app_assoc. cbn [app]. now rewrite <- app_assoc.
Qed.

Lemma step_facet_header_line (st : Parser.State) (name count : jsstring) :
  name <> [] -> forallb is_word name = true ->
  count <> [] -> forallb is_digit count = true ->
  Parser.step st (str "@" ++ name ++ str "[" ++ count ++ str "]:")
  = OK (Parser.mkState (doc st) (Some name) [] true false).
Proof.
  intros Hn Hw Hc Hd. apply step_facet_header.
  rewrite header_line_shape, trim_line by reflexivity.
  rewrite <- header_line_shape. unfold parseFacetHeader.
  change (str "@" ++ name ++ str "[" ++ count ++ str "]:")
    with (c_at :: (name ++ c_lbracket :: (count ++ 93%N :: [58%N]))).
  change (strip_prefix (str "@") (c_at :: ?x)) with (Some x).
  cbv beta iota.
  rewrite plus_app by (assumption || reflexivity).
  change (strip_prefix (str "[") (c_lbracket :: ?x)) with (Some x).
  cbv beta iota.
  rewrite plus_app by (assumption || reflexivity).
  reflexivity.
Qed.

Lemma header_line_no_lf (name count : jsstring) :
  forallb is_word name = true -> forallb is_digit count = true ->
  ~ In c_lf (str "@" ++ name ++ str "[" ++ count ++ str "]:").
Proof.
  intros Hw Hd Hin.
  change (str "@" ++ name ++ str "[" ++ count ++ str "]:")
    with (c_at :: (name ++ c_lbracket :: (count ++ 93%N :: [58%N]))) in Hin.
  destruct Hin as [Hin|Hin]; [discriminate Hin|].
  apply in_app_or in Hin as [Hin|Hin]; [now apply word_no_lf in Hin|].
  destruct Hin as [Hin|Hin]; [discriminate Hin|].
  apply in_app_or in Hin as [Hin|Hin];
    [now apply digits_no_lf in Hin|].
  destruct Hin as [Hin|[Hin|[]]]; discriminate Hin.
Qed.

Lemma parse_around_header (before after : list jsstring)
  (name count : jsstring) :
  name <> [] -> forallb is_word name = true ->
  count <> [] -> forallb is_digit count = true ->
  parseTqlDocumentFromString
    (join [c_lf]
       (before ++ (str "@" ++ name ++ str "[" ++ count ++ str "]:") :: after))
  = (st <- parse_lines (concat (map (split c_lf) before)) (init empty_doc) ;;
     st' <- parse_lines (concat (map (split c_lf) after))
              (Parser.mkState (doc st) (Some name) [] true false) ;;
     OK (doc st')).
Proof.
  intros Hn Hw Hc Hd. unfold parseTqlDocumentFromString.
  rewrite split_join_concat by (destruct before; discriminate).
  rewrite map_app, concat_app. cbn [map concat].
  rewrite split_no_sep by now apply header_line_no_lf.
  unfold parse_lines. rewrite foldM_app.
  destruct (foldM Parser.step (concat (map (split c_lf) before))
              (init empty_doc)) as [st|e]; cbn [bind]; [|reflexivity].
  cbn [app foldM]. rewrite step_facet_header_line by assumption.
  reflexivity.
Qed.

(** X14. The parser does not read the row count of a facet header: two texts
    that differ in the digits between the brackets of one facet header
    have the same parse. *)
Theorem facet_row_count_is_not_read (before after : list jsstring)
  (name count count' : jsstring) :
  name <> [] -> forallb is_word name = true ->
  count <> [] -> forallb is_digit count = true ->
  count' <> [] -> forallb is_digit count' = true ->
  parseTqlDocumentFromString
    (join [c_lf]
       (before ++ (str "@" ++ name ++ str "[" ++ count ++ str "]:") :: after))
  = parseTqlDocumentFromString
      (join [c_lf]
         (before
          ++ (str "@" ++ name ++ str "[" ++ count' ++ str "]:") :: after)).
Proof.
  intros Hn Hw Hc Hd Hc' Hd'.
  now rewrite !parse_around_header by assumption.
Qed.

Lemma facet_row_count_is_not_read_witness :
  parseTqlDocumentFromString
    (str "@table[1]:
| id | name |
|----|------|
| 1  | Ann  |
| 2  | Bob  |")
  = parseTqlDocumentFromString
      (str "@table[250]:
| id | name |
|----|------|
| 1  | Ann  |
| 2  | Bob  |").
Proof.
  apply (facet_row_count_is_not_read []
           [str "| id | name |"; str "|----|------|";
            str "| 1  | Ann  |"; str "| 2  | Bob  |"]
           (str "table") (str "1") (str "250"));
    (discriminate || reflexivity).
Defined.

End FacetCount.
